(** * The parallel stage of the pipeline: fan-out, join, forward-or-drop

    A shallow embedding of [parallel.go].  The stage's goroutines (the
    Executor, i.e. the body of [executeTask] running inside [Run], and the
    Task Runners it spawns with [go func]) are modelled as an interleaving
    machine: a scheduler move picks which goroutine takes its next atomic
    action, and a move that the goroutine cannot take (a blocked channel
    operation, a [select] branch that is not ready) yields [None].

    Every action performed by the code is recorded, with the goroutine
    that performed it, in a chronological trace. *)

From Stdlib Require Import String DecimalString ZArith Bool Arith Lia List Permutation.
Import ListNotations.

Set Implicit Arguments.

(** ** Small list helpers *)

(** In-place update of position [j]; positions out of range are left
    untouched (the machine never updates one). *)
Fixpoint set_nth {A : Type} (j : nat) (x : A) (l : list A) : list A :=
  match l, j with
  | [], _ => []
  | _ :: t, O => x :: t
  | h :: t, S j' => h :: set_nth j' x t
  end.

Definition count {A : Type} (f : A -> bool) (l : list A) : nat :=
  length (filter f l).

Definition sum_map {A : Type} (f : A -> nat) (l : list A) : nat :=
  fold_right (fun a n => f a + n) 0 l.

Definition is_none {A : Type} (o : option A) : bool :=
  match o with None => true | Some _ => false end.

(** [d == nil] for one of the values received from the join channel. *)
Definition has_nil {A : Type} (l : list (option A)) : bool := existsb is_none l.

(** ** The stage's constructor and identity *)

Section Model.

(** [Data] is the interface of the items; the stage only uses [Clone] and
    [MarkAsProcessed] (the latter is an action of the trace). *)
Variable Data : Type.
Variable Clone : Data -> Data.

(** The [Task] interface: [Process(ctx, data, tp) (Data, error)].  A [nil]
    item or error is [None]; an error is represented by its message.  What
    a task itself does with [ctx] and through [tp] belongs to the task, not
    to the stage, and is not part of the stage's trace. *)
Record Task : Type := mkTask {
  Process : Data -> option Data * option string
}.

Record parallel : Type := mkParallel {
  id : string;
  tasks : list Task
}.

(** [Parallel(id, tasks...)]: a [nil] Stage is [None]. *)
Definition Parallel (i : string) (ts : list Task) : option parallel :=
  if Nat.eqb (length ts) 0 then None
  else Some {| id := i; tasks := ts |}.

Definition ID (p : parallel) : string := id p.

(** ** Goroutines, actions and configurations *)

Inductive actor : Type :=
| Executor
| Runner (idx : nat).

Definition actor_eqb (a b : actor) : bool :=
  match a, b with
  | Executor, Executor => true
  | Runner i, Runner j => Nat.eqb i j
  | _, _ => false
  end.

Inductive action : Type :=
| CtxDone                              (* a select took [<-ctx.Done()] *)
| SendNewData (c : Data)               (* [sp.NewData() <- c] *)
| CallProcess (idx : nat) (c : Data)   (* [p.tasks[idx].Process(ctx, clone, tp)] *)
| AppendError (msg : string)           (* [sp.Error().Append(...)] *)
| SendProcessed (x : Data)             (* [sp.ProcessedData() <- x] *)
| MarkAsProcessed (x : Data)           (* [x.MarkAsProcessed()] *)
| SendDone (d : option Data)           (* [done <- d] *)
| RecvDone (d : option Data)           (* [d := <-done] *)
| SendOutput (x : Data).               (* [sp.Output() <- x] *)

Definition event : Type := (actor * action)%type.

(** Program points of a Task Runner (the body of the [go func]). *)
Inductive rpc : Type :=
| RCall                                   (* before [Process] *)
| RErr (d : option Data) (e : string)     (* [err != nil]: before [Append] *)
| RPub (d : option Data)                  (* before [ProcessedData() <- clone] *)
| RMark (d : option Data)                 (* before [clone.MarkAsProcessed()] *)
| RDone (d : option Data)                 (* before [done <- d] *)
| RExit.

Record runner : Type := mkRunner {
  ridx : nat;
  rclone : Data;
  rpoint : rpc
}.

(** Program points of the Executor ([executeTask]). *)
Inductive epc : Type :=
| EDispatch (i : nat)                (* head of the first loop, index [i] *)
| EJoin (k : nat) (failed : bool)    (* head of the second loop, index [k] *)
| EFailPub                           (* [failed]: before [ProcessedData() <- data] *)
| EFailMark                          (* before [data.MarkAsProcessed()] *)
| EForward                           (* at the final select *)
| EReturned.

Record fconfig : Type := mkConfig {
  data : Data;                       (* the admitted item *)
  point : epc;
  runners : list runner;             (* spawned goroutines, in spawn order *)
  done_cap : nat;                    (* capacity of [done] *)
  done : list (option Data);         (* buffer of [done], oldest first *)
  errors : list string;              (* the Error Sink *)
  trace : list event
}.

Variable position : Z.               (* [sp.Position()] *)

(** [fmt.Errorf("pipeline stage %d: %v", sp.Position(), err)] *)
Definition stage_error (e : string) : string :=
  ("pipeline stage " ++ NilZero.string_of_int (Z.to_int position) ++ ": " ++ e)%string.

Variable p : parallel.

(** [done := make(chan Data, len(p.tasks))] and [i := 0]. *)
Definition executeTask_init (d : Data) : fconfig :=
  {| data := d; point := EDispatch 0; runners := [];
     done_cap := length (tasks p); done := []; errors := []; trace := [] |}.

Definition exec_to (pc : epc) (a : list action) (s : fconfig) : fconfig :=
  {| data := data s; point := pc; runners := runners s;
     done_cap := done_cap s; done := done s; errors := errors s;
     trace := trace s ++ map (pair Executor) a |}.

Definition spawn (r : runner) (s : fconfig) : fconfig :=
  {| data := data s; point := point s; runners := runners s ++ [r];
     done_cap := done_cap s; done := done s; errors := errors s;
     trace := trace s |}.

Definition set_done (b : list (option Data)) (s : fconfig) : fconfig :=
  {| data := data s; point := point s; runners := runners s;
     done_cap := done_cap s; done := b; errors := errors s;
     trace := trace s |}.

Definition push_error (m : string) (s : fconfig) : fconfig :=
  {| data := data s; point := point s; runners := runners s;
     done_cap := done_cap s; done := done s; errors := errors s ++ [m];
     trace := trace s |}.

Definition runner_to (j : nat) (r : runner) (pc : rpc) (a : action) (s : fconfig) : fconfig :=
  {| data := data s; point := point s;
     runners := set_nth j {| ridx := ridx r; rclone := rclone r; rpoint := pc |} (runners s);
     done_cap := done_cap s; done := done s; errors := errors s;
     trace := trace s ++ [(Runner (ridx r), a)] |}.

(** A scheduler move inside one fan-out. *)
Inductive fmove : Type :=
| FExec            (* the Executor's next action other than [<-ctx.Done()] *)
| FExecDone        (* the Executor's select takes [<-ctx.Done()] *)
| FRunner (j : nat). (* the [j]-th spawned Task Runner's next action *)

(** One atomic action of the Executor.  [takeDone] tells which branch a
    select takes.  The [go] statement cannot block, so the runner is
    spawned in the same action as the send on [NewData] that precedes it;
    the two loop heads leave their loop in an action of their own. *)
Definition exec_step (cancelled : bool) (takeDone : bool) (s : fconfig) : option fconfig :=
  let n := length (tasks p) in
  match point s with
  | EDispatch i =>
      if i <? n then
        let c := Clone (data s) in
        if takeDone then
          if cancelled then Some (exec_to EReturned [CtxDone] s) else None
        else
          Some (spawn {| ridx := i; rclone := c; rpoint := RCall |}
                  (exec_to (EDispatch (S i)) [SendNewData c] s))
      else if takeDone then None
      else Some (exec_to (EJoin 0 false) [] s)
  | EJoin k failed =>
      if takeDone then None
      else if k <? n then
        match done s with
        | [] => None
        | d :: rest =>
            Some (set_done rest
                    (exec_to (EJoin (S k) (if is_none d then true else failed))
                       [RecvDone d] s))
        end
      else Some (exec_to (if failed then EFailPub else EForward) [] s)
  | EFailPub =>
      if takeDone then None
      else Some (exec_to EFailMark [SendProcessed (data s)] s)
  | EFailMark =>
      if takeDone then None
      else Some (exec_to EReturned [MarkAsProcessed (data s)] s)
  | EForward =>
      if takeDone then
        if cancelled then Some (exec_to EReturned [CtxDone] s) else None
      else Some (exec_to EReturned [SendOutput (data s)] s)
  | EReturned => None
  end.

(** One atomic action of the [j]-th Task Runner. *)
Definition runner_step (j : nat) (s : fconfig) : option fconfig :=
  match nth_error (runners s) j with
  | None => None
  | Some r =>
      match rpoint r with
      | RCall =>
          match nth_error (tasks p) (ridx r) with
          | None => None
          | Some t =>
              let res := Process t (rclone r) in
              Some (runner_to j r
                      (match snd res with
                       | Some e => RErr (fst res) e
                       | None => RPub (fst res)
                       end)
                      (CallProcess (ridx r) (rclone r)) s)
          end
      | RErr d e =>
          Some (push_error (stage_error e)
                  (runner_to j r (RPub d) (AppendError (stage_error e)) s))
      | RPub d => Some (runner_to j r (RMark d) (SendProcessed (rclone r)) s)
      | RMark d => Some (runner_to j r (RDone d) (MarkAsProcessed (rclone r)) s)
      | RDone d =>
          if length (done s) <? done_cap s then
            Some (set_done (done s ++ [d]) (runner_to j r RExit (SendDone d) s))
          else None
      | RExit => None
      end
  end.

Definition fstep (cancelled : bool) (m : fmove) (s : fconfig) : option fconfig :=
  match m with
  | FExec => exec_step cancelled false s
  | FExecDone => exec_step cancelled true s
  | FRunner j => runner_step j s
  end.

(** ** One fan-out together with its context *)

Inductive move : Type :=
| MCancel                 (* the context is cancelled *)
| MFan (m : fmove).

Definition sys : Type := (bool * fconfig)%type.

Definition step (m : move) (st : sys) : option sys :=
  match m with
  | MCancel => Some (true, snd st)
  | MFan f =>
      match fstep (fst st) f (snd st) with
      | Some s' => Some (fst st, s')
      | None => None
      end
  end.

Fixpoint run (ms : list move) (st : sys) : option sys :=
  match ms with
  | [] => Some st
  | m :: ms' =>
      match step m st with
      | Some st' => run ms' st'
      | None => None
      end
  end.

(** [reachable d c s]: some schedule leads an admission of [d], started
    with the context in any state, to configuration [s] with the context
    cancelled iff [c]. *)
Definition reachable (d : Data) (c : bool) (s : fconfig) : Prop :=
  exists c0 ms, run ms (c0, executeTask_init d) = Some (c, s).

(** ** Observations on a trace *)

(** The actions of one goroutine, in the order it performed them. *)
Definition acts_of (a : actor) (tr : list event) : list action :=
  map snd (filter (fun e => actor_eqb (fst e) a) tr).

(** The values the Executor received from [done]. *)
Definition recvs (l : list action) : list (option Data) :=
  flat_map (fun a => match a with RecvDone d => [d] | _ => [] end) l.

Definition received (s : fconfig) : list (option Data) :=
  recvs (acts_of Executor (trace s)).

(** The messages appended to the Error Sink, by anyone. *)
Definition sink_of (tr : list event) : list string :=
  flat_map (fun e => match snd e with AppendError m => [m] | _ => [] end) tr.

Definition is_processed (a : action) : bool :=
  match a with SendProcessed _ => true | _ => false end.

Definition is_mark (a : action) : bool :=
  match a with MarkAsProcessed _ => true | _ => false end.

Definition is_output (a : action) : bool :=
  match a with SendOutput _ => true | _ => false end.

Definition is_append (a : action) : bool :=
  match a with AppendError _ => true | _ => false end.

Definition is_recv (a : action) : bool :=
  match a with RecvDone _ => true | _ => false end.

Definition is_newdata (a : action) : bool :=
  match a with SendNewData _ => true | _ => false end.

(** Announcements on the processed-notification channel, by anyone. *)
Definition announcements (tr : list event) : nat :=
  count (fun e => is_processed (snd e)) tr.

(** Sends on the Output channel, by anyone. *)
Definition outputs (tr : list event) : nat :=
  count (fun e => is_output (snd e)) tr.

Definition is_returned (pc : epc) : bool :=
  match pc with EReturned => true | _ => false end.

Definition is_exit (pc : rpc) : bool :=
  match pc with RExit => true | _ => false end.

(** ** The script of each goroutine *)

Definition err_acts (e : option string) : list action :=
  match e with
  | Some m => [AppendError (stage_error m)]
  | None => []
  end.

(** What a Task Runner with index [j], clone [c] and [Process] result
    [res] has done when it stands at program point [pc]. *)
Definition runner_acts (j : nat) (c : Data) (res : option Data * option string)
    (pc : rpc) : list action :=
  match pc with
  | RCall => []
  | RErr _ _ => [CallProcess j c]
  | RPub _ => CallProcess j c :: err_acts (snd res)
  | RMark _ => CallProcess j c :: err_acts (snd res) ++ [SendProcessed c]
  | RDone _ =>
      CallProcess j c :: err_acts (snd res) ++ [SendProcessed c; MarkAsProcessed c]
  | RExit =>
      CallProcess j c :: err_acts (snd res)
        ++ [SendProcessed c; MarkAsProcessed c; SendDone (fst res)]
  end.

(** The number of actions a Task Runner at [pc] still has to perform, at
    most. *)
Definition remaining (pc : rpc) : nat :=
  match pc with
  | RCall => 5
  | RErr _ _ => 4
  | RPub _ => 3
  | RMark _ => 2
  | RDone _ => 1
  | RExit => 0
  end.

(** The whole body of the [go func]. *)
Definition runner_script (j : nat) (c : Data) (res : option Data * option string) :
    list action :=
  runner_acts j c res RExit.

(** The local variables [d] and [err] hold what [Process] returned. *)
Definition locals_ok (res : option Data * option string) (pc : rpc) : Prop :=
  match pc with
  | RErr d e => d = fst res /\ snd res = Some e
  | RPub d | RMark d | RDone d => d = fst res
  | RCall | RExit => True
  end.

Definition runner_ok (s : fconfig) (j : nat) (r : runner) : Prop :=
  ridx r = j /\ rclone r = Clone (data s) /\
  exists t, nth_error (tasks p) j = Some t /\
    locals_ok (Process t (rclone r)) (rpoint r) /\
    acts_of (Runner j) (trace s) =
      runner_acts j (rclone r) (Process t (rclone r)) (rpoint r).

(** The four ways [executeTask] returns. *)
Inductive outcome : Type :=
| Aborted (i : nat)                      (* [ctx.Done()] while publishing clone [i] *)
| Dropped (rs : list (option Data))      (* some received value was [nil] *)
| Abandoned (rs : list (option Data))    (* [ctx.Done()] at the final select *)
| Forwarded (rs : list (option Data)).   (* the item was sent on Output *)

Definition join_acts (c : Data) (rs : list (option Data)) : list action :=
  repeat (SendNewData c) (length (tasks p)) ++ map RecvDone rs.

Definition outcome_acts (d : Data) (o : outcome) : list action :=
  match o with
  | Aborted i => repeat (SendNewData (Clone d)) i ++ [CtxDone]
  | Dropped rs => join_acts (Clone d) rs ++ [SendProcessed d; MarkAsProcessed d]
  | Abandoned rs => join_acts (Clone d) rs ++ [CtxDone]
  | Forwarded rs => join_acts (Clone d) rs ++ [SendOutput d]
  end.

Definition outcome_ok (o : outcome) : Prop :=
  match o with
  | Aborted i => i < length (tasks p)
  | Dropped rs => length rs = length (tasks p) /\ has_nil rs = true
  | Abandoned rs | Forwarded rs => length rs = length (tasks p) /\ has_nil rs = false
  end.

Definition dispatched (o : outcome) : nat :=
  match o with
  | Aborted i => i
  | _ => length (tasks p)
  end.

(** What the Executor has done when it stands at its program point. *)
Definition exec_ok (s : fconfig) : Prop :=
  let n := length (tasks p) in
  let acts := acts_of Executor (trace s) in
  let c := Clone (data s) in
  match point s with
  | EDispatch i =>
      i <= n /\ length (runners s) = i /\ acts = repeat (SendNewData c) i
  | EJoin k failed =>
      length (runners s) = n /\
      exists rs, length rs = k /\ k <= n /\ failed = has_nil rs /\ acts = join_acts c rs
  | EFailPub =>
      length (runners s) = n /\
      exists rs, length rs = n /\ has_nil rs = true /\ acts = join_acts c rs
  | EFailMark =>
      length (runners s) = n /\
      exists rs, length rs = n /\ has_nil rs = true /\
        acts = join_acts c rs ++ [SendProcessed (data s)]
  | EForward =>
      length (runners s) = n /\
      exists rs, length rs = n /\ has_nil rs = false /\ acts = join_acts c rs
  | EReturned =>
      exists o, outcome_ok o /\ length (runners s) = dispatched o /\
        acts = outcome_acts (data s) o
  end.

(** The item a Task Runner's task returned, once it has handed it off. *)
Definition result_of (r : runner) : option Data :=
  match nth_error (tasks p) (ridx r) with
  | Some t => fst (Process t (rclone r))
  | None => None
  end.

Definition handed_off (rs : list runner) : list (option Data) :=
  flat_map (fun r => if is_exit (rpoint r) then [result_of r] else []) rs.

Definition actor_in (m : nat) (a : actor) : Prop :=
  match a with
  | Executor => True
  | Runner j => j < m
  end.

(** The invariant of every configuration an admission of [d] reaches. *)
Record inv (d : Data) (s : fconfig) : Prop := mkInv {
  inv_data : data s = d;
  inv_cap : done_cap s = length (tasks p);
  inv_exec : exec_ok s;
  inv_runners : forall j r, nth_error (runners s) j = Some r -> runner_ok s j r;
  inv_chan : Permutation (received s ++ done s) (handed_off (runners s));
  inv_actors : Forall (fun e => actor_in (length (runners s)) (fst e)) (trace s);
  inv_errors : errors s = sink_of (trace s)
}.

(** What the tasks return on a clone of [d], in the order of [p.tasks]. *)
Definition task_results (d : Data) : list (option Data) :=
  map (fun t => fst (Process t (Clone d))) (tasks p).

(** The tasks that return a non-nil error on a clone of [d]. *)
Definition failing (d : Data) : list Task :=
  filter (fun t => negb (is_none (snd (Process t (Clone d))))) (tasks p).

Definition is_ctx_done (a : action) : bool :=
  match a with CtxDone => true | _ => false end.

(** The Executor's select took [<-ctx.Done()]. *)
Definition took_done (s : fconfig) : Prop :=
  existsb is_ctx_done (acts_of Executor (trace s)) = true.

(** The original item was sent on Output by the Executor. *)
Definition forwarded (s : fconfig) : Prop :=
  In (Executor, SendOutput (data s)) (trace s).

(** ** The stage's event loop *)

(** A value popped from the requeue Queue: a [Data] or something else. *)
Inductive queued : Type :=
| QData (d : Data)
| QOther.

Record rconfig : Type := mkRun {
  ctx_done : bool;               (* the context is cancelled *)
  stopped : bool;                (* [Run] has returned *)
  fanouts : list fconfig        (* one fan-out per admission, latest first *)
}.

Inductive rmove : Type :=
| RCancel                        (* the context is cancelled *)
| RSelectDone                    (* the select takes [<-ctx.Done()] *)
| RInput (x : option Data)       (* [<-sp.Input()]; [None] when closed *)
| RQueue (x : option queued)     (* the Queue signals; [Next()] gives [x] *)
| RFan (k : nat) (m : fmove).    (* a goroutine of the [k]-th fan-out moves *)

(** [Run] is at its select when it is not inside [executeTask]. *)
Definition at_select (g : rconfig) : bool :=
  negb (stopped g) &&
  match fanouts g with
  | [] => true
  | f :: _ => is_returned (point f)
  end.

Definition begin_fanout (d : Data) (g : rconfig) : rconfig :=
  {| ctx_done := ctx_done g; stopped := stopped g;
     fanouts := executeTask_init d :: fanouts g |}.

Definition stop (g : rconfig) : rconfig :=
  {| ctx_done := ctx_done g; stopped := true; fanouts := fanouts g |}.

Definition Run_step (m : rmove) (g : rconfig) : option rconfig :=
  match m with
  | RCancel =>
      Some {| ctx_done := true; stopped := stopped g; fanouts := fanouts g |}
  | RSelectDone =>
      if at_select g && ctx_done g then Some (stop g) else None
  | RInput x =>
      if at_select g then
        match x with
        | None => Some (stop g)
        | Some dataIn => Some (begin_fanout dataIn g)
        end
      else None
  | RQueue x =>
      if at_select g then
        match x with
        | Some (QData d) => Some (begin_fanout d g)
        | Some QOther => Some g
        | None => Some g
        end
      else None
  | RFan k m =>
      match nth_error (fanouts g) k with
      | None => None
      | Some f =>
          match fstep (ctx_done g) m f with
          | Some f' =>
              Some {| ctx_done := ctx_done g; stopped := stopped g;
                      fanouts := set_nth k f' (fanouts g) |}
          | None => None
          end
      end
  end.

Fixpoint Run (ms : list rmove) (g : rconfig) : option rconfig :=
  match ms with
  | [] => Some g
  | m :: ms' =>
      match Run_step m g with
      | Some g' => Run ms' g'
      | None => None
      end
  end.

(** The items sent on Output so far, latest admission first. *)
Definition Run_outputs (g : rconfig) : list nat :=
  map (fun f => outputs (trace f)) (fanouts g).

(** [Run] is called with nothing in flight; the context may already be
    cancelled. *)
Definition Run_init (c : bool) : rconfig :=
  {| ctx_done := c; stopped := false; fanouts := [] |}.

Definition Run_reachable (g : rconfig) : Prop :=
  exists c0 ms, Run ms (Run_init c0) = Some g.

(** The invariant of [Run]: only the latest fan-out may have its Executor
    running, and none has once [Run] has returned; and each fan-out is a
    configuration that an admission of its item reaches under the context
    of [Run]. *)
Definition Run_inv (g : rconfig) : Prop :=
  (forall k f, nth_error (fanouts g) k = Some f -> point f <> EReturned ->
     k = 0 /\ stopped g = false) /\
  (forall f, In f (fanouts g) ->
     reachable (data f) (ctx_done g) f).

(** A pop from the Queue that admits nothing: the Queue was empty, or the
    value is not a [Data]. *)
Definition skipped (x : option queued) : bool :=
  match x with
  | Some (QData _) => false
  | Some QOther => true
  | None => true
  end.

(** The items a schedule of [Run] admits, in the order it admits them. *)
Definition admissions (ms : list rmove) : list Data :=
  flat_map (fun m => match m with
                     | RInput (Some d) => [d]
                     | RQueue (Some (QData d)) => [d]
                     | _ => []
                     end) ms.

Definition is_call (a : action) : bool :=
  match a with CallProcess _ _ => true | _ => false end.

(** A Task Runner that has called [Process]. *)
Definition started (r : runner) : nat :=
  match rpoint r with RCall => 0 | _ => 1 end.

(** A move in which the context plays no part. *)
Definition calm (m : move) : bool :=
  match m with
  | MFan FExec => true
  | MFan (FRunner _) => true
  | MFan FExecDone => false
  | MCancel => false
  end.

End Model.

Arguments RCall {Data}.
Arguments RExit {Data}.
Arguments CtxDone {Data}.
Arguments AppendError {Data} msg.
Arguments QOther {Data}.
Arguments Aborted {Data} i.
Arguments err_acts {Data} position e.
Arguments is_processed {Data} a.
Arguments is_mark {Data} a.
Arguments is_output {Data} a.
Arguments is_append {Data} a.
Arguments is_recv {Data} a.
Arguments is_newdata {Data} a.
Arguments is_ctx_done {Data} a.
Arguments is_call {Data} a.
Arguments Run_init {Data} c.
Arguments RCancel {Data}.
Arguments RSelectDone {Data}.
Arguments RFan {Data} k m.
Arguments skipped {Data} x.

(** ** Concrete instances *)

Module Example.

(** Items are numbers; a clone of [d] is [S d], so it differs from [d]. *)
Definition clone (d : nat) : nat := S d.

Definition ok_task : Task nat := {| Process := fun c => (Some c, None) |}.

Definition boom_task : Task nat :=
  {| Process := fun _ => (None, Some "boom"%string) |}.

Definition p1 : parallel nat := {| id := "one"%string; tasks := [ok_task] |}.

Definition p2 : parallel nat :=
  {| id := "two"%string; tasks := [ok_task; ok_task] |}.

Definition p3 : parallel nat :=
  {| id := "three"%string; tasks := [ok_task; boom_task; ok_task] |}.

(** A Task Runner runs to its end in four actions, or five when its task
    returned an error. *)
Definition whole (j k : nat) : list move := repeat (MFan (FRunner j)) k.

(** [p1]: the task succeeds and the item is forwarded. *)
Definition sched_forward1 : list move :=
  [MFan FExec] ++ whole 0 4 ++ repeat (MFan FExec) 4.

(** [p1]: the task succeeds, the context is cancelled, and the final
    select takes [<-ctx.Done()]. *)
Definition sched_abandon1 : list move :=
  [MFan FExec] ++ whole 0 4 ++ repeat (MFan FExec) 3 ++ [MCancel; MFan FExecDone].

(** [p3]: the middle task fails; the runners finish in the order 1, 0, 2. *)
Definition sched_drop3 : list move :=
  repeat (MFan FExec) 4 ++ whole 1 5 ++ whole 0 4 ++ whole 2 4
    ++ repeat (MFan FExec) 6.

(** [p3]: the context is cancelled while clone 1 waits to be published. *)
Definition sched_abort3 : list move :=
  [MFan FExec; MCancel; MFan FExecDone].

(** [p3]: all three runners stand before [done <- d]. *)
Definition sched_before_send3 : list move :=
  repeat (MFan FExec) 3 ++ whole 1 4 ++ whole 0 3 ++ whole 2 3.

(** [p2]: the join has received one of two values. *)
Definition sched_join2 : list move :=
  repeat (MFan FExec) 3 ++ whole 0 4 ++ [MFan FExec].

(** [p3]: the join loop has ended, having received a nil. *)
Definition sched_joined3 : list move :=
  repeat (MFan FExec) 4 ++ whole 1 5 ++ whole 0 4 ++ whole 2 4
    ++ repeat (MFan FExec) 3.

(** [p1]: the Executor stands at the final select. *)
Definition sched_at_forward1 : list move :=
  [MFan FExec] ++ whole 0 4 ++ repeat (MFan FExec) 3.

(** [p3]: the Executor waits to publish the second clone. *)
Definition sched_publishing3 : list move := [MFan FExec].

(** The stage stands at position 2 of its pipeline and admits item 7,
    with the context not cancelled. *)
Definition after (q : parallel nat) (ms : list move) : sys nat :=
  match run clone 2 q ms (false, executeTask_init q 7) with
  | Some st => st
  | None => (false, executeTask_init q 7)
  end.

Definition state_after (q : parallel nat) (ms : list move) : fconfig nat :=
  snd (after q ms).

(** A schedule of one fan-out, as moves of the first fan-out of [Run]. *)
Definition in_run (k : nat) (ms : list move) : list (rmove nat) :=
  map (fun m => match m with
                | MCancel => RCancel
                | MFan f => RFan k f
                end) ms.

(** [Run] admits item 7 from the input channel and forwards it. *)
Definition run_first : list (rmove nat) :=
  RInput (Some 7) :: in_run 0 sched_forward1.

(** Then it admits item 9 from the Queue, forwards it, and the input
    channel is closed. *)
Definition run_second : list (rmove nat) :=
  RQueue (Some (QData 9)) :: in_run 0 sched_forward1 ++ [RInput None].

(** In between, a Queue signal finds the Queue empty. *)
Definition run_sched : list (rmove nat) :=
  run_first ++ RQueue None :: run_second.

Definition Run_after (q : parallel nat) (ms : list (rmove nat)) : rconfig nat :=
  match Run clone 2 q ms (Run_init false) with
  | Some g => g
  | None => Run_init false
  end.

Definition latest (g : rconfig nat) : fconfig nat :=
  hd (executeTask_init p1 0) (fanouts g).

(** The events of a trace that mark, or announce as processed, item [x]. *)
Definition touches (x : nat) (e : event nat) : bool :=
  match snd e with
  | MarkAsProcessed y | SendProcessed y => Nat.eqb x y
  | _ => false
  end.

End Example.

(** * Proofs *)

(** ** Lists *)

Lemma length_set_nth {A : Type} (j : nat) (x : A) (l : list A) :
  length (set_nth j x l) = length l.
Proof.
  revert j; induction l as [|h t IH]; intros [|j]; simpl; auto.
Qed.

Lemma nth_error_set_nth_same {A : Type} (j : nat) (x : A) (l : list A) :
  j < length l -> nth_error (set_nth j x l) j = Some x.
Proof.
  revert j; induction l as [|h t IH]; intros [|j] H; simpl in *; try lia; auto.
  apply IH; lia.
Qed.

Lemma nth_error_set_nth_other {A : Type} (j k : nat) (x : A) (l : list A) :
  j <> k -> nth_error (set_nth j x l) k = nth_error l k.
Proof.
  revert j k; induction l as [|h t IH]; intros [|j] [|k] H; simpl; auto;
    try congruence.
Qed.

Lemma nth_error_snoc {A : Type} (l : list A) (x y : A) (j : nat) :
  nth_error (l ++ [x]) j = Some y ->
  nth_error l j = Some y \/ (j = length l /\ y = x).
Proof.
  intros H. destruct (Nat.lt_ge_cases j (length l)) as [Hlt|Hge].
  - left. rewrite nth_error_app1 in H; auto.
  - right. rewrite nth_error_app2 in H by lia.
    destruct (j - length l) as [|k] eqn:E; simpl in H.
    + split; [lia | congruence].
    + destruct k; discriminate.
Qed.

Lemma count_app {A : Type} (f : A -> bool) (l1 l2 : list A) :
  count f (l1 ++ l2) = count f l1 + count f l2.
Proof.
  unfold count. rewrite filter_app, length_app. reflexivity.
Qed.

Lemma count_repeat_false {A : Type} (f : A -> bool) (x : A) (k : nat) :
  f x = false -> count f (repeat x k) = 0.
Proof.
  intros H. unfold count. induction k; simpl; auto. rewrite H. exact IHk.
Qed.

Lemma count_map_false {A B : Type} (f : B -> bool) (g : A -> B) (l : list A) :
  (forall a, f (g a) = false) -> count f (map g l) = 0.
Proof.
  intros H. unfold count. induction l; simpl; auto. rewrite H. exact IHl.
Qed.

Lemma sum_map_app {A : Type} (f : A -> nat) (l1 l2 : list A) :
  sum_map f (l1 ++ l2) = sum_map f l1 + sum_map f l2.
Proof.
  unfold sum_map. induction l1; simpl; auto. rewrite IHl1. lia.
Qed.

Lemma sum_map_ext {A : Type} (f g : A -> nat) (l : list A) :
  (forall a, In a l -> f a = g a) -> sum_map f l = sum_map g l.
Proof.
  unfold sum_map. induction l as [|a l IH]; simpl; intros H; [reflexivity|].
  rewrite (H a) by auto. rewrite IH by auto. reflexivity.
Qed.

Lemma sum_map_const {A : Type} (f : A -> nat) (k : nat) (l : list A) :
  (forall a, In a l -> f a = k) -> sum_map f l = k * length l.
Proof.
  unfold sum_map. induction l as [|a l IH]; simpl; intros H; [lia|].
  rewrite (H a) by auto. rewrite IH by auto. lia.
Qed.

(** Adding [x] at the single index [j] of a range adds [x] to the sum. *)
Lemma sum_map_bump (g : nat -> nat) (x j a m : nat) :
  sum_map (fun i => g i + (if Nat.eqb i j then x else 0)) (seq a m) =
  sum_map g (seq a m) + (if (a <=? j) && (j <? a + m) then x else 0).
Proof.
  revert a; induction m as [|m IH]; intros a; simpl.
  - destruct (a <=? j) eqn:E1; simpl; auto.
    destruct (j <? a + 0) eqn:E2; auto.
    apply Nat.leb_le in E1. apply Nat.ltb_lt in E2. lia.
  - rewrite IH.
    destruct (Nat.eqb_spec a j) as [->|Hne].
    + replace (S j <=? j) with false by (symmetry; apply Nat.leb_gt; lia).
      replace (j <=? j) with true by (symmetry; apply Nat.leb_le; lia).
      replace (j <? j + S m) with true by (symmetry; apply Nat.ltb_lt; lia).
      simpl. lia.
    + destruct (a <=? j) eqn:E1.
      * apply Nat.leb_le in E1.
        replace (S a <=? j) with true by (symmetry; apply Nat.leb_le; lia).
        replace (j <? S a + m) with (j <? a + S m)
          by (f_equal; lia). simpl. lia.
      * apply Nat.leb_gt in E1.
        replace (S a <=? j) with false by (symmetry; apply Nat.leb_gt; lia).
        simpl. lia.
Qed.

Lemma has_nil_app {A : Type} (l1 l2 : list (option A)) :
  has_nil (l1 ++ l2) = has_nil l1 || has_nil l2.
Proof. apply existsb_app. Qed.

Lemma has_nil_perm {A : Type} (l1 l2 : list (option A)) :
  Permutation l1 l2 -> has_nil l1 = has_nil l2.
Proof.
  induction 1; simpl; auto.
  - congruence.
  - destruct (is_none x), (is_none y); reflexivity.
  - congruence.
Qed.

Lemma has_nil_false_iff {A : Type} (l : list (option A)) :
  has_nil l = false <-> forall x, In x l -> x <> None.
Proof.
  unfold has_nil. induction l as [|h t IH]; simpl.
  - split; [intros _ x [] | reflexivity].
  - rewrite orb_false_iff, IH. split.
    + intros [Hh Ht] x [<-|Hin]; [now destruct h | auto].
    + intros H. split; [|intros x Hx; apply H; auto].
      destruct h; auto. exfalso. apply (H None); auto.
Qed.

(** ** Traces *)

Section Proofs.

Context {Data : Type}.
Variable Clone : Data -> Data.
Variable position : Z.
Variable p : parallel Data.

Local Abbreviation N := (length (tasks p)).

Lemma actor_eqb_refl (a : actor) : actor_eqb a a = true.
Proof. destruct a; simpl; auto using Nat.eqb_refl. Qed.

Lemma acts_of_app (a : actor) (t1 t2 : list (event Data)) :
  acts_of a (t1 ++ t2) = acts_of a t1 ++ acts_of a t2.
Proof. unfold acts_of. rewrite filter_app, map_app. reflexivity. Qed.

Lemma acts_of_own (a : actor) (l : list (action Data)) :
  acts_of a (map (pair a) l) = l.
Proof.
  unfold acts_of. induction l as [|x l IH]; simpl; auto.
  rewrite actor_eqb_refl. simpl. now rewrite IH.
Qed.

Lemma acts_of_foreign (a b : actor) (l : list (action Data)) :
  actor_eqb b a = false -> acts_of a (map (pair b) l) = [].
Proof.
  intros H. unfold acts_of. induction l as [|x l IH]; simpl; auto.
  now rewrite H.
Qed.

Lemma acts_of_fresh (m j : nat) (tr : list (event Data)) :
  Forall (fun e => actor_in m (fst e)) tr -> m <= j ->
  acts_of (Runner j) tr = [].
Proof.
  intros H Hle. unfold acts_of. induction H as [|[a x] tr Ha _ IH]; simpl; auto.
  destruct a as [|i]; simpl in *; auto.
  destruct (Nat.eqb_spec i j); [lia | auto].
Qed.

Lemma recvs_app (l1 l2 : list (action Data)) :
  recvs (l1 ++ l2) = recvs l1 ++ recvs l2.
Proof. unfold recvs. apply flat_map_app. Qed.

Lemma recvs_repeat_newdata (c : Data) (k : nat) :
  recvs (repeat (SendNewData c) k) = [].
Proof. induction k; simpl; auto. Qed.

Lemma recvs_map_recv (rs : list (option Data)) : recvs (map (@RecvDone Data) rs) = rs.
Proof. induction rs; simpl; congruence. Qed.

Lemma recvs_join_acts (c : Data) (rs : list (option Data)) :
  recvs (join_acts p c rs) = rs.
Proof.
  unfold join_acts. now rewrite recvs_app, recvs_repeat_newdata, recvs_map_recv.
Qed.

Lemma sink_of_app (t1 t2 : list (event Data)) :
  sink_of (t1 ++ t2) = sink_of t1 ++ sink_of t2.
Proof. unfold sink_of. apply flat_map_app. Qed.

Lemma actor_in_mono (m m' : nat) (a : actor) :
  actor_in m a -> m <= m' -> actor_in m' a.
Proof. destruct a; simpl; auto; lia. Qed.

Lemma actors_mono (m m' : nat) (tr : list (event Data)) :
  Forall (fun e => actor_in m (fst e)) tr -> m <= m' ->
  Forall (fun e => actor_in m' (fst e)) tr.
Proof.
  intros H Hle. eapply Forall_impl; [|exact H].
  intros e He. simpl in *. eapply actor_in_mono; [exact He | exact Hle].
Qed.

Lemma actors_exec (m : nat) (l : list (action Data)) :
  Forall (fun e : event Data => actor_in m (fst e)) (map (pair Executor) l).
Proof. induction l; simpl; constructor; simpl; auto. Qed.

Lemma handed_off_app (l1 l2 : list (runner Data)) :
  handed_off p (l1 ++ l2) = handed_off p l1 ++ handed_off p l2.
Proof. unfold handed_off. apply flat_map_app. Qed.

Lemma handed_off_length (l : list (runner Data)) :
  length (handed_off p l) <= length l.
Proof.
  induction l as [|r l IH]; simpl; auto.
  destruct (is_exit (rpoint r)); simpl; lia.
Qed.

(** A runner that has not handed off leaves room for its value. *)
Lemma handed_off_pending (l : list (runner Data)) (j : nat) (r : runner Data) :
  nth_error l j = Some r -> is_exit (rpoint r) = false ->
  length (handed_off p l) < length l.
Proof.
  revert j; induction l as [|h l IH]; intros [|j] Hn He; simpl in *; try discriminate.
  - injection Hn as ->. rewrite He. simpl.
    pose proof (handed_off_length l). unfold handed_off in *. lia.
  - specialize (IH _ Hn He). destruct (is_exit (rpoint h)); simpl; lia.
Qed.

(** Moving a runner between two points that are not its exit. *)
Lemma handed_off_set_nth_stay (l : list (runner Data)) (j : nat) (r r' : runner Data) :
  nth_error l j = Some r -> is_exit (rpoint r) = false ->
  is_exit (rpoint r') = false ->
  handed_off p (set_nth j r' l) = handed_off p l.
Proof.
  revert j; induction l as [|h l IH]; intros [|j] Hn He He'; simpl in *;
    try discriminate.
  - injection Hn as ->. now rewrite He, He'.
  - f_equal. eapply IH; eauto.
Qed.

(** Moving a runner to its exit hands off its result. *)
Lemma handed_off_set_nth_exit (l : list (runner Data)) (j : nat) (r r' : runner Data) :
  nth_error l j = Some r -> is_exit (rpoint r) = false ->
  is_exit (rpoint r') = true ->
  Permutation (handed_off p l ++ [result_of p r']) (handed_off p (set_nth j r' l)).
Proof.
  revert j; induction l as [|h l IH]; intros [|j] Hn He He'; simpl in *;
    try discriminate.
  - injection Hn as ->. rewrite He, He'. simpl.
    apply Permutation_sym, Permutation_cons_append.
  - rewrite <- app_assoc. apply Permutation_app_head. eapply IH; eauto.
Qed.

(** ** The invariant is preserved *)

Lemma runner_ok_frame (s s' : fconfig Data) (j : nat) (r : runner Data) :
  data s' = data s ->
  acts_of (Runner j) (trace s') = acts_of (Runner j) (trace s) ->
  runner_ok Clone position p s j r -> runner_ok Clone position p s' j r.
Proof.
  intros Hd Ht (Hi & Hc & t & Hn & Hl & Ha).
  unfold runner_ok. rewrite Hd, Ht. eauto 10.
Qed.

(** The Executor performs the actions [a]; it may spawn a runner. *)
Lemma inv_exec_emit (d : Data) (s s' : fconfig Data) (a : list (action Data)) :
  inv Clone position p d s ->
  data s' = data s -> done_cap s' = done_cap s -> errors s' = errors s ->
  trace s' = trace s ++ map (pair Executor) a ->
  sink_of (map (pair Executor) a) = [] ->
  exec_ok Clone p s' ->
  (forall j r, nth_error (runners s') j = Some r ->
     nth_error (runners s) j = Some r \/
     (j = length (runners s) /\ j < N /\
      r = {| ridx := j; rclone := Clone (data s); rpoint := RCall |})) ->
  length (runners s) <= length (runners s') ->
  Permutation (recvs (acts_of Executor (trace s) ++ a) ++ done s')
    (handed_off p (runners s')) ->
  inv Clone position p d s'.
Proof.
  intros [Hd Hc He Hr Hch Ha Herr] Hd' Hc' He' Ht Hs Hx Hrs Hlen Hp.
  constructor.
  - congruence.
  - congruence.
  - exact Hx.
  - intros j r Hn. destruct (Hrs j r Hn) as [Hold|(Hj & Hlt & ->)].
    + apply runner_ok_frame with (s := s); auto.
      rewrite Ht, acts_of_app, acts_of_foreign, app_nil_r; auto.
    + unfold runner_ok; simpl. rewrite Hd'. repeat split; auto.
      destruct (nth_error (tasks p) j) as [t|] eqn:Et.
      * exists t. repeat split; auto.
        rewrite Ht, acts_of_app, acts_of_foreign, app_nil_r by auto.
        apply acts_of_fresh with (m := length (runners s)); auto. lia.
      * apply nth_error_None in Et. lia.
  - unfold received. rewrite Ht, acts_of_app, acts_of_own. exact Hp.
  - rewrite Ht. apply Forall_app. split.
    + eapply actors_mono; eauto.
    + apply actors_exec.
  - rewrite He', Ht, sink_of_app, Hs, app_nil_r. exact Herr.
Qed.

Lemma exec_step_inv (d : Data) (c b : bool) (s s' : fconfig Data) :
  inv Clone position p d s -> exec_step Clone p c b s = Some s' ->
  inv Clone position p d s'.
Proof.
  intros Hinv H. pose proof Hinv as [Hd Hc He Hr Hch Ha Herr].
  unfold exec_step in H. unfold exec_ok in He. unfold received in Hch.
  destruct (point s) as [i|k f| | | |] eqn:Hp.
  - destruct He as (Hi & Hlen & Hacts).
    destruct (Nat.ltb_spec i N) as [Hlt|Hge].
    + destruct b.
      * destruct c; [|discriminate]. injection H as <-.
        apply inv_exec_emit with (s := s) (a := [CtxDone]); simpl; auto.
        -- unfold exec_ok; simpl. exists (Aborted i). simpl.
           rewrite acts_of_app, Hacts. auto.
        -- rewrite recvs_app, app_nil_r. exact Hch.
      * injection H as <-.
        apply inv_exec_emit with (s := s) (a := [SendNewData (Clone (data s))]);
          simpl; auto.
        -- unfold exec_ok; simpl. rewrite length_app, acts_of_app, Hacts. simpl.
           repeat split; try lia.
           now rewrite repeat_cons.
        -- intros j r Hn. apply nth_error_snoc in Hn.
           destruct Hn as [Hn|[-> ->]]; auto. right. rewrite Hlen. auto.
        -- rewrite length_app; lia.
        -- rewrite recvs_app, app_nil_r, handed_off_app, app_nil_r. exact Hch.
    + destruct b; [discriminate|]. injection H as <-.
      apply inv_exec_emit with (s := s) (a := []); simpl; auto using app_nil_r.
      * unfold exec_ok; simpl. split; [lia|]. exists []. simpl.
        assert (i = N) as -> by lia.
        unfold join_acts. simpl. rewrite !app_nil_r. repeat split; auto.
        lia.
      * rewrite app_nil_r. exact Hch.
  - destruct He as (Hlen & rs & Hk & Hle & Hf & Hacts).
    destruct b; [discriminate|].
    destruct (Nat.ltb_spec k N) as [Hlt|Hge].
    + destruct (done s) as [|x rest] eqn:Hdone; [discriminate|].
      injection H as <-.
      apply inv_exec_emit with (s := s) (a := [RecvDone x]); simpl; auto.
      * unfold exec_ok; simpl. split; auto. exists (rs ++ [x]).
        rewrite length_app, has_nil_app, acts_of_app, Hacts. simpl.
        repeat split; try lia.
        -- rewrite orb_false_r, <- Hf. destruct (is_none x), f; reflexivity.
        -- unfold join_acts. now rewrite map_app, app_assoc.
      * rewrite recvs_app. simpl. rewrite <- app_assoc. exact Hch.
    + injection H as <-.
      assert (k = N) by lia. subst k.
      apply inv_exec_emit with (s := s) (a := []); simpl; auto using app_nil_r.
      * unfold exec_ok. simpl. rewrite app_nil_r.
        destruct f; simpl; split; auto; exists rs; auto.
      * rewrite app_nil_r. exact Hch.
  - destruct He as (Hlen & rs & Hk & Hf & Hacts).
    destruct b; [discriminate|]. injection H as <-.
    apply inv_exec_emit with (s := s) (a := [SendProcessed (data s)]); simpl; auto.
    + unfold exec_ok. simpl. rewrite acts_of_app, Hacts. split; auto.
      exists rs. auto.
    + rewrite recvs_app, app_nil_r. exact Hch.
  - destruct He as (Hlen & rs & Hk & Hf & Hacts).
    destruct b; [discriminate|]. injection H as <-.
    apply inv_exec_emit with (s := s) (a := [MarkAsProcessed (data s)]); simpl; auto.
    + unfold exec_ok. simpl. rewrite acts_of_app, Hacts.
      exists (Dropped rs). simpl. rewrite <- app_assoc. auto.
    + rewrite recvs_app, app_nil_r. exact Hch.
  - destruct He as (Hlen & rs & Hk & Hf & Hacts).
    destruct b.
    + destruct c; [|discriminate]. injection H as <-.
      apply inv_exec_emit with (s := s) (a := [CtxDone]); simpl; auto.
      * unfold exec_ok. simpl. rewrite acts_of_app, Hacts.
        exists (Abandoned rs). simpl. auto.
      * rewrite recvs_app, app_nil_r. exact Hch.
    + injection H as <-.
      apply inv_exec_emit with (s := s) (a := [SendOutput (data s)]); simpl; auto.
      * unfold exec_ok. simpl. rewrite acts_of_app, Hacts.
        exists (Forwarded rs). simpl. auto.
      * rewrite recvs_app, app_nil_r. exact Hch.
  - discriminate.
Qed.

Lemma exec_ok_frame (s s' : fconfig Data) :
  data s' = data s -> point s' = point s ->
  length (runners s') = length (runners s) ->
  acts_of Executor (trace s') = acts_of Executor (trace s) ->
  exec_ok Clone p s -> exec_ok Clone p s'.
Proof.
  intros Hd Hp Hl Ha. unfold exec_ok. rewrite Hd, Hp, Hl, Ha. auto.
Qed.

(** The [j]-th Task Runner performs the action [a] and moves to [pc']. *)
Lemma inv_runner_emit (d : Data) (s s' : fconfig Data) (j : nat)
    (r : runner Data) (t : Task Data) (pc' : rpc Data) (a : action Data) :
  inv Clone position p d s ->
  nth_error (runners s) j = Some r ->
  nth_error (tasks p) j = Some t ->
  data s' = data s -> done_cap s' = done_cap s -> point s' = point s ->
  runners s' =
    set_nth j {| ridx := ridx r; rclone := rclone r; rpoint := pc' |} (runners s) ->
  trace s' = trace s ++ [(Runner (ridx r), a)] ->
  errors s' = errors s ++ sink_of [(Runner (ridx r), a)] ->
  locals_ok (Process t (rclone r)) pc' ->
  runner_acts position j (rclone r) (Process t (rclone r)) pc' =
    runner_acts position j (rclone r) (Process t (rclone r)) (rpoint r) ++ [a] ->
  Permutation (received s ++ done s') (handed_off p (runners s')) ->
  inv Clone position p d s'.
Proof.
  intros [Hd Hc He Hr Hch Ha Herr] Hn Ht Hd' Hc' Hp' Hrs Htr Her Hloc Hacts Hperm.
  destruct (Hr j r Hn) as (Hi & Hcl & t' & Ht' & Hl & Hra).
  assert (t' = t) by congruence. subst t'.
  assert (Hj : j < length (runners s)) by (apply nth_error_Some; congruence).
  constructor.
  - congruence.
  - congruence.
  - apply exec_ok_frame with (s := s); auto.
    + rewrite Hrs. apply length_set_nth.
    + rewrite Htr, acts_of_app. simpl. apply app_nil_r.
  - intros k rk Hk. rewrite Hrs in Hk.
    destruct (Nat.eq_dec j k) as [<-|Hne].
    + rewrite nth_error_set_nth_same in Hk by auto. injection Hk as <-.
      unfold runner_ok; simpl. rewrite Hd'. repeat split; auto.
      exists t. repeat split; auto.
      rewrite Htr, acts_of_app, Hra, Hacts. f_equal.
      unfold acts_of; simpl. rewrite Hi, Nat.eqb_refl. reflexivity.
    + rewrite nth_error_set_nth_other in Hk by auto.
      apply runner_ok_frame with (s := s); auto.
      rewrite Htr, acts_of_app. unfold acts_of at 2; simpl.
      rewrite Hi. destruct (Nat.eqb_spec j k); [contradiction|].
      apply app_nil_r.
  - unfold received. rewrite Htr, acts_of_app. simpl. rewrite app_nil_r.
    exact Hperm.
  - rewrite Hrs, length_set_nth, Htr. apply Forall_app. split; auto.
    constructor; auto. simpl. lia.
  - rewrite Her, Htr, sink_of_app. congruence.
Qed.

Lemma runner_step_inv (d : Data) (j : nat) (s s' : fconfig Data) :
  inv Clone position p d s -> runner_step position p j s = Some s' ->
  inv Clone position p d s'.
Proof.
  intros Hinv H. pose proof Hinv as [Hd Hc He Hr Hch Ha Herr].
  unfold runner_step in H.
  destruct (nth_error (runners s) j) as [r|] eqn:Hn; [|discriminate].
  destruct (Hr j r Hn) as (Hi & Hcl & t & Ht & Hl & Hra).
  destruct (rpoint r) as [|x e|x|x|x|] eqn:Hpc.
  - rewrite Hi, Ht in H. injection H as <-.
    apply inv_runner_emit with (s := s) (j := j) (r := r) (t := t)
      (a := CallProcess j (rclone r))
      (pc' := match snd (Process t (rclone r)) with
              | Some e => RErr (fst (Process t (rclone r))) e
              | None => RPub (fst (Process t (rclone r)))
              end);
      simpl; rewrite ?Hi, ?Hpc, ?app_nil_r; auto.
    + destruct (snd (Process t (rclone r))) eqn:E; simpl; auto.
    + destruct (snd (Process t (rclone r))) eqn:E; simpl; rewrite ?E; reflexivity.
    + erewrite handed_off_set_nth_stay; eauto.
      * now rewrite Hpc.
      * simpl. now destruct (snd (Process t (rclone r))).
  - injection H as <-. destruct Hl as [Hx He'].
    apply inv_runner_emit with (s := s) (j := j) (r := r) (t := t)
      (a := AppendError (stage_error position e)) (pc' := RPub x);
      simpl; rewrite ?Hi, ?Hpc, ?app_nil_r; auto.
    + rewrite He'. reflexivity.
    + erewrite handed_off_set_nth_stay; eauto. now rewrite Hpc.
  - injection H as <-.
    apply inv_runner_emit with (s := s) (j := j) (r := r) (t := t)
      (a := SendProcessed (rclone r)) (pc' := RMark x);
      simpl; rewrite ?Hi, ?Hpc, ?app_nil_r; auto.
    erewrite handed_off_set_nth_stay; eauto. now rewrite Hpc.
  - injection H as <-.
    apply inv_runner_emit with (s := s) (j := j) (r := r) (t := t)
      (a := MarkAsProcessed (rclone r)) (pc' := RDone x);
      simpl; rewrite ?Hi, ?Hpc, ?app_nil_r; auto.
    + simpl. rewrite <- app_assoc. reflexivity.
    + erewrite handed_off_set_nth_stay; eauto. now rewrite Hpc.
  - destruct (length (done s) <? done_cap s); [|discriminate].
    injection H as <-. simpl in Hl.
    apply inv_runner_emit with (s := s) (j := j) (r := r) (t := t)
      (a := SendDone x) (pc' := RExit);
      simpl; rewrite ?Hi, ?Hpc, ?app_nil_r; auto.
    + simpl. rewrite Hl, <- app_assoc. reflexivity.
    + rewrite app_assoc.
      eapply Permutation_trans;
        [| eapply handed_off_set_nth_exit; eauto; now rewrite Hpc].
      apply Permutation_app; auto.
      unfold result_of. simpl. rewrite Ht, Hl. auto.
  - discriminate.
Qed.

Lemma fstep_inv (d : Data) (c : bool) (m : fmove) (s s' : fconfig Data) :
  inv Clone position p d s -> fstep Clone position p c m s = Some s' ->
  inv Clone position p d s'.
Proof.
  destruct m; simpl; eauto using exec_step_inv, runner_step_inv.
Qed.

Lemma init_inv (d : Data) : inv Clone position p d (executeTask_init p d).
Proof.
  constructor; simpl; auto.
  - unfold exec_ok; simpl. repeat split; auto. lia.
  - intros [|j] r H; discriminate.
Qed.

Lemma run_inv (d : Data) (ms : list move) (c c' : bool) (s s' : fconfig Data) :
  inv Clone position p d s ->
  run Clone position p ms (c, s) = Some (c', s') ->
  inv Clone position p d s'.
Proof.
  revert c s. induction ms as [|m ms IH]; intros c s Hinv H; simpl in H.
  - now injection H as <- <-.
  - destruct m as [|f]; simpl in H.
    + eapply IH; eauto.
    + destruct (fstep Clone position p c f s) as [s1|] eqn:E; [|discriminate].
      eapply IH; [|exact H]. eapply fstep_inv; eauto.
Qed.

Lemma reachable_inv (d : Data) (c : bool) (s : fconfig Data) :
  reachable Clone position p d c s -> inv Clone position p d s.
Proof.
  intros (c0 & ms & H). eapply run_inv; [apply init_inv | exact H].
Qed.

(** ** Counting the actions of a trace goroutine by goroutine *)

Lemma count_cons {A : Type} (f : A -> bool) (x : A) (l : list A) :
  count f (x :: l) = (if f x then 1 else 0) + count f l.
Proof. unfold count. simpl. destruct (f x); reflexivity. Qed.

Lemma acts_of_cons (a b : actor) (x : action Data) (tr : list (event Data)) :
  acts_of a ((b, x) :: tr) =
  if actor_eqb b a then x :: acts_of a tr else acts_of a tr.
Proof. unfold acts_of. simpl. destruct (actor_eqb b a); reflexivity. Qed.

Lemma count_split_gen (f : action Data -> bool) (m : nat) (tr : list (event Data)) :
  Forall (fun e => actor_in m (fst e)) tr ->
  count (fun e => f (snd e)) tr =
  count f (acts_of Executor tr) +
  sum_map (fun j => count f (acts_of (Runner j) tr)) (seq 0 m).
Proof.
  induction 1 as [|[a x] tr Ha _ IH].
  - unfold acts_of, count; simpl. rewrite sum_map_const with (k := 0); auto.
  - rewrite count_cons. simpl snd. destruct a as [|i]; simpl in Ha.
    + rewrite acts_of_cons. simpl actor_eqb. cbv iota. rewrite count_cons.
      rewrite (sum_map_ext
                 (fun j => count f (acts_of (Runner j) ((Executor, x) :: tr)))
                 (fun j => count f (acts_of (Runner j) tr))); [lia|].
      intros j _. rewrite acts_of_cons. reflexivity.
    + rewrite (sum_map_ext
                 (fun j => count f (acts_of (Runner j) ((Runner i, x) :: tr)))
                 (fun j => count f (acts_of (Runner j) tr)
                           + (if Nat.eqb j i then if f x then 1 else 0 else 0))).
      * rewrite sum_map_bump. simpl andb.
        replace (i <? m) with true by (symmetry; apply Nat.ltb_lt; exact Ha).
        rewrite acts_of_cons. simpl actor_eqb. cbv iota. lia.
      * intros j _. rewrite acts_of_cons. simpl actor_eqb.
        rewrite (Nat.eqb_sym i j). destruct (Nat.eqb j i).
        -- rewrite count_cons. lia.
        -- lia.
Qed.

Lemma count_split (f : action Data -> bool) (d : Data) (s : fconfig Data) :
  inv Clone position p d s ->
  count (fun e => f (snd e)) (trace s) =
  count f (acts_of Executor (trace s)) +
  sum_map (fun j => count f (acts_of (Runner j) (trace s)))
    (seq 0 (length (runners s))).
Proof. intros H. apply count_split_gen, (inv_actors H). Qed.

(** ** Consequences of the invariant *)

Lemma runners_bound (d : Data) (s : fconfig Data) :
  inv Clone position p d s -> length (runners s) <= N.
Proof.
  intros H. pose proof (inv_exec H) as He. unfold exec_ok in He.
  destruct (point s); try (destruct He as [-> _]; lia).
  - destruct He as (? & ? & _); lia.
  - destruct He as (o & Ho & -> & _). destruct o; simpl in *; lia.
Qed.

(** While some runner has not handed off, [done] has room. *)
Lemma done_has_room (d : Data) (s : fconfig Data) (j : nat) (r : runner Data) :
  inv Clone position p d s ->
  nth_error (runners s) j = Some r -> is_exit (rpoint r) = false ->
  length (received s) + length (done s) < N.
Proof.
  intros H Hn He.
  pose proof (Permutation_length (inv_chan H)) as Hl.
  rewrite length_app in Hl.
  pose proof (handed_off_pending (runners s) j Hn He).
  pose proof (runners_bound H). lia.
Qed.

(** A Task Runner that has not exited can always take its next action. *)
Lemma runner_enabled (d : Data) (s : fconfig Data) (j : nat) (r : runner Data) :
  inv Clone position p d s ->
  nth_error (runners s) j = Some r -> rpoint r <> RExit ->
  exists s', runner_step position p j s = Some s'.
Proof.
  intros H Hn He. unfold runner_step. rewrite Hn.
  destruct (inv_runners H j Hn) as (Hi & Hc & t & Ht & _).
  destruct (rpoint r) eqn:Hpc; eauto.
  - rewrite Hi, Ht. eauto.
  - assert (Hroom : length (done s) < done_cap s).
    { rewrite (inv_cap H).
      pose proof (@done_has_room d s j r H Hn) as Hr.
      rewrite Hpc in Hr. specialize (Hr eq_refl). lia. }
    apply Nat.ltb_lt in Hroom. rewrite Hroom. eauto.
  - congruence.
Qed.

Lemma handed_off_all (l : list (runner Data)) :
  length (handed_off p l) = length l ->
  Forall (fun r => rpoint r = RExit) l /\ handed_off p l = map (result_of p) l.
Proof.
  induction l as [|r l IH]; simpl; intros H; auto.
  pose proof (handed_off_length l) as Hl. unfold handed_off in *.
  destruct (rpoint r) eqn:E; simpl in *; try lia.
  injection H as H. destruct (IH H) as [IH1 IH2].
  split; [constructor; auto | congruence].
Qed.

(** Once [N] values have been received, every runner has exited and the
    values received are the tasks' results, in some order. *)
Lemma joined (d : Data) (s : fconfig Data) :
  inv Clone position p d s -> length (received s) = N ->
  done s = [] /\ length (runners s) = N /\
  Forall (fun r => rpoint r = RExit) (runners s) /\
  Permutation (received s) (task_results Clone p d).
Proof.
  intros H Hrecv.
  pose proof (Permutation_length (inv_chan H)) as Hl.
  rewrite length_app in Hl.
  pose proof (handed_off_length (runners s)) as Hh.
  pose proof (runners_bound H) as Hb.
  assert (Hd : done s = []) by (destruct (done s); simpl in *; [auto | lia]).
  assert (Hn : length (runners s) = N) by lia.
  destruct (handed_off_all (runners s)) as [Hex Hmap]; [rewrite Hd in Hl; simpl in Hl; lia|].
  repeat split; auto.
  pose proof (inv_chan H) as Hp. rewrite Hd, app_nil_r, Hmap in Hp.
  replace (task_results Clone p d) with (map (result_of p) (runners s)); auto.
  apply nth_error_ext. intros k. unfold task_results.
  rewrite !nth_error_map.
  destruct (nth_error (runners s) k) as [r|] eqn:Er.
  - destruct (inv_runners H k Er) as (Hi & Hc & t & Ht & _).
    rewrite Ht. simpl. unfold result_of. rewrite Hi, Ht, Hc, (inv_data H).
    reflexivity.
  - apply nth_error_None in Er.
    destruct (nth_error (tasks p) k) eqn:Et; auto.
    assert (k < N) by (apply nth_error_Some; congruence). lia.
Qed.

(** ** What the Executor has done when it has returned *)

Lemma in_acts_of (a : actor) (x : action Data) (tr : list (event Data)) :
  In (a, x) tr -> In x (acts_of a tr).
Proof.
  intros H. unfold acts_of. apply in_map_iff. exists (a, x). split; auto.
  apply filter_In. split; auto. apply actor_eqb_refl.
Qed.

Lemma acts_of_in (a : actor) (x : action Data) (tr : list (event Data)) :
  In x (acts_of a tr) -> In (a, x) tr.
Proof.
  unfold acts_of. intros H. apply in_map_iff in H.
  destruct H as ([b y] & Hy & Hin). simpl in Hy. subst y.
  apply filter_In in Hin. destruct Hin as [Hin Hb]. simpl in Hb.
  destruct a, b; simpl in Hb; try discriminate; auto.
  apply Nat.eqb_eq in Hb. now subst.
Qed.

Lemma in_join_acts (c : Data) (rs : list (option Data)) (x : action Data) :
  In x (join_acts p c rs) -> x = SendNewData c \/ exists r, x = RecvDone r.
Proof.
  unfold join_acts. intros H. apply in_app_or in H. destruct H as [H|H].
  - left. now apply repeat_spec in H.
  - right. apply in_map_iff in H. destruct H as (r & <- & _). eauto.
Qed.

Lemma count_join_acts (f : action Data -> bool) (c : Data) (rs : list (option Data)) :
  f (SendNewData c) = false -> (forall r, f (RecvDone r) = false) ->
  count f (join_acts p c rs) = 0.
Proof.
  intros H1 H2. unfold join_acts.
  now rewrite count_app, count_repeat_false, count_map_false.
Qed.

Lemma returned_outcome (d : Data) (s : fconfig Data) :
  inv Clone position p d s -> point s = EReturned ->
  exists o, outcome_ok p o /\ length (runners s) = dispatched p o /\
    acts_of Executor (trace s) = outcome_acts Clone p d o.
Proof.
  intros H Hp. pose proof (inv_exec H) as He. unfold exec_ok in He.
  rewrite Hp, (inv_data H) in He. exact He.
Qed.

Lemma recvs_outcome (d : Data) (o : outcome Data) :
  recvs (outcome_acts Clone p d o) =
  match o with
  | Aborted _ => []
  | Dropped rs | Abandoned rs | Forwarded rs => rs
  end.
Proof.
  destruct o; simpl; rewrite recvs_app; simpl; rewrite ?app_nil_r;
    auto using recvs_repeat_newdata, recvs_join_acts.
Qed.

(** A Task Runner never sends on Output. *)
Lemma count_runner_output (j : nat) (c : Data) (res : option Data * option string)
    (pc : rpc Data) :
  count is_output (runner_acts position j c res pc) = 0.
Proof. destruct pc, res as [x [m|]]; reflexivity. Qed.

Lemma outputs_exec (d : Data) (s : fconfig Data) :
  inv Clone position p d s ->
  outputs (trace s) = count is_output (acts_of Executor (trace s)).
Proof.
  intros H. unfold outputs. rewrite (count_split is_output H).
  rewrite sum_map_const with (k := 0); [lia|].
  intros j Hj. apply in_seq in Hj.
  destruct (nth_error (runners s) j) as [r|] eqn:Er.
  - destruct (inv_runners H j Er) as (_ & _ & t & _ & _ & ->).
    apply count_runner_output.
  - apply nth_error_None in Er. lia.
Qed.

Lemma count_outcome_output (d : Data) (o : outcome Data) :
  count is_output (outcome_acts Clone p d o) =
  match o with Forwarded _ => 1 | _ => 0 end.
Proof.
  destruct o; simpl; rewrite count_app;
    rewrite ?count_join_acts, ?count_repeat_false by reflexivity; reflexivity.
Qed.

Ltac in_acts_cases H :=
  unfold join_acts in H;
  repeat (apply in_app_or in H; destruct H as [H|H]);
  first [ apply repeat_spec in H; discriminate
        | apply in_map_iff in H; destruct H as (? & H & _); discriminate
        | simpl in H; intuition discriminate ].

Lemma outcome_output (d : Data) (o : outcome Data) :
  In (SendOutput d) (outcome_acts Clone p d o) <->
  match o with Forwarded _ => True | _ => False end.
Proof.
  destruct o; simpl; split; intros H; try contradiction;
    try solve [in_acts_cases H].
  apply in_or_app. right. simpl; auto.
Qed.

Lemma outcome_done (d : Data) (o : outcome Data) :
  In CtxDone (outcome_acts Clone p d o) <->
  match o with Aborted _ | Abandoned _ => True | _ => False end.
Proof.
  destruct o; simpl; split; intros H; try contradiction;
    try solve [in_acts_cases H]; auto; apply in_or_app; right; simpl; auto.
Qed.

Lemma took_done_in (s : fconfig Data) :
  took_done s <-> In CtxDone (acts_of Executor (trace s)).
Proof.
  unfold took_done. rewrite existsb_exists. split.
  - intros (x & Hin & Hx). destruct x; try discriminate. exact Hin.
  - intros H. exists CtxDone. auto.
Qed.

Lemma count_pos_in {A : Type} (f : A -> bool) (x : A) (l : list A) :
  In x l -> f x = true -> 0 < count f l.
Proof.
  intros Hin Hf. unfold count.
  assert (H : In x (filter f l)) by (apply filter_In; auto).
  destruct (filter f l); simpl in *; [contradiction | lia].
Qed.

Lemma forwarded_outputs (s : fconfig Data) : forwarded s -> 0 < outputs (trace s).
Proof.
  intros H. unfold outputs.
  apply count_pos_in with (x := (Executor, SendOutput (data s))); auto.
Qed.

(** * The claims *)

(** C1 (as amended).  When [executeTask] has returned after receiving all
    [N] values from [done], the values received are the tasks' results; the
    original item has been sent on Output if and only if none of them is
    nil and the final select did not take the cancellation branch; and when
    some value is nil nothing at all has been sent on Output. *)
Theorem forward_iff_all_succeeded (d : Data) (c : bool) (s : fconfig Data) :
  reachable Clone position p d c s ->
  point s = EReturned -> length (received s) = N ->
  Permutation (received s) (task_results Clone p d) /\
  (forwarded s <-> has_nil (received s) = false /\ ~ took_done s) /\
  (forwarded s -> outputs (trace s) = 1) /\
  (has_nil (received s) = true -> outputs (trace s) = 0).
Proof.
  intros Hreach Hp Hn. pose proof (reachable_inv Hreach) as H.
  destruct (joined H Hn) as (_ & _ & _ & Hperm).
  destruct (returned_outcome H Hp) as (o & Hok & _ & Hacts).
  split; [exact Hperm|].
  assert (Hout : outputs (trace s) = match o with Forwarded _ => 1 | _ => 0 end).
  { rewrite (outputs_exec H), Hacts. apply count_outcome_output. }
  assert (Hrec : received s =
                 match o with
                 | Aborted _ => []
                 | Dropped rs | Abandoned rs | Forwarded rs => rs
                 end).
  { unfold received. rewrite Hacts. apply recvs_outcome. }
  assert (Hfw : forwarded s <-> In (SendOutput d) (outcome_acts Clone p d o)).
  { unfold forwarded. rewrite (inv_data H), <- Hacts.
    split; [apply in_acts_of | apply acts_of_in]. }
  assert (Htd : took_done s <-> In CtxDone (outcome_acts Clone p d o)).
  { rewrite took_done_in. now rewrite Hacts. }
  rewrite Hfw, Htd, Hout, outcome_output, outcome_done.
  rewrite Hrec in Hn |- *.
  destruct o as [i|rs|rs|rs]; simpl in *.
  - lia.
  - destruct Hok as [_ Hnil]. rewrite Hnil. intuition discriminate.
  - destruct Hok as [_ Hnil]. rewrite Hnil. intuition discriminate.
  - destruct Hok as [_ Hnil]. rewrite Hnil. intuition discriminate.
Qed.

Lemma has_nil_true_iff {A : Type} (l : list (option A)) :
  has_nil l = true <-> In None l.
Proof.
  unfold has_nil. rewrite existsb_exists. split.
  - intros ([x|] & Hin & Hx); [discriminate | exact Hin].
  - intros H. exists None. auto.
Qed.

Lemma filter_nil_of_count {A : Type} (f : A -> bool) (l : list A) :
  count f l = 0 -> filter f l = [].
Proof. unfold count. destruct (filter f l); simpl; [reflexivity | discriminate]. Qed.

Lemma filter_join_acts (f : action Data -> bool) (c : Data) (rs : list (option Data)) :
  f (SendNewData c) = false -> (forall r, f (RecvDone r) = false) ->
  filter f (join_acts p c rs) = [].
Proof. intros. apply filter_nil_of_count, count_join_acts; auto. Qed.

(** Once [N] values have been received every Task Runner has run its
    whole script. *)
Lemma joined_scripts (d : Data) (s : fconfig Data) (j : nat) :
  inv Clone position p d s -> length (received s) = N -> j < N ->
  exists t, nth_error (tasks p) j = Some t /\
    acts_of (Runner j) (trace s) =
      runner_script position j (Clone d) (Process t (Clone d)).
Proof.
  intros H Hn Hj. destruct (joined H Hn) as (_ & Hlen & Hex & _).
  destruct (nth_error (runners s) j) as [r|] eqn:Er.
  - destruct (inv_runners H j Er) as (_ & Hc & t & Ht & _ & Ha).
    exists t. split; auto. rewrite Ha, Hc, (inv_data H).
    rewrite Forall_forall in Hex. rewrite (Hex r); [reflexivity|].
    eapply nth_error_In; eauto.
  - apply nth_error_None in Er. lia.
Qed.

Lemma script_processed (j : nat) (c : Data) (res : option Data * option string) :
  filter is_processed (runner_script position j c res) = [SendProcessed c].
Proof. destruct res as [x [m|]]; reflexivity. Qed.

Lemma script_mark (j : nat) (c : Data) (res : option Data * option string) :
  filter is_mark (runner_script position j c res) = [MarkAsProcessed c].
Proof. destruct res as [x [m|]]; reflexivity. Qed.

(** After the join the [N] clones have been announced, once each. *)
Lemma joined_announcements (d : Data) (s : fconfig Data) :
  inv Clone position p d s -> length (received s) = N ->
  announcements (trace s) =
  count is_processed (acts_of Executor (trace s)) + N.
Proof.
  intros H Hn. unfold announcements. rewrite (count_split is_processed H).
  destruct (joined H Hn) as (_ & Hlen & _ & _). rewrite Hlen.
  rewrite sum_map_const with (k := 1); [rewrite length_seq; lia|].
  intros j Hj. apply in_seq in Hj.
  destruct (@joined_scripts d s j H Hn) as (t & _ & ->); [lia|].
  unfold count. now rewrite script_processed.
Qed.

(** C2 (as amended).  When [executeTask] has returned without having
    taken a cancellation branch, all [N] values have been received and
    every clone has been announced and marked exactly once by its runner.
    On the failure path the Executor has announced and marked the original
    exactly once, so the processed-notification channel has carried [N+1]
    announcements.  On the success path the Executor has sent the original
    on Output and has neither announced nor marked it: the channel has
    carried exactly the [N] announcements of the clones. *)
Theorem original_processed_once_when_dropped (d : Data) (c : bool) (s : fconfig Data) :
  reachable Clone position p d c s ->
  point s = EReturned -> ~ took_done s ->
  length (received s) = N /\
  (forall j, j < N ->
     filter is_processed (acts_of (Runner j) (trace s)) = [SendProcessed (Clone d)] /\
     filter is_mark (acts_of (Runner j) (trace s)) = [MarkAsProcessed (Clone d)]) /\
  (has_nil (received s) = true ->
     filter is_processed (acts_of Executor (trace s)) = [SendProcessed d] /\
     filter is_mark (acts_of Executor (trace s)) = [MarkAsProcessed d] /\
     announcements (trace s) = N + 1) /\
  (has_nil (received s) = false ->
     forwarded s /\
     filter is_processed (acts_of Executor (trace s)) = [] /\
     filter is_mark (acts_of Executor (trace s)) = [] /\
     announcements (trace s) = N).
Proof.
  intros Hreach Hp Hnd. pose proof (reachable_inv Hreach) as H.
  destruct (returned_outcome H Hp) as (o & Hok & _ & Hacts).
  assert (Htd : took_done s <-> In CtxDone (outcome_acts Clone p d o)).
  { rewrite took_done_in. now rewrite Hacts. }
  rewrite Htd, outcome_done in Hnd.
  assert (Hrec : received s =
                 match o with
                 | Aborted _ => []
                 | Dropped rs | Abandoned rs | Forwarded rs => rs
                 end).
  { unfold received. rewrite Hacts. apply recvs_outcome. }
  assert (Hfw : forwarded s <-> In (SendOutput d) (outcome_acts Clone p d o)).
  { unfold forwarded. rewrite (inv_data H), <- Hacts.
    split; [apply in_acts_of | apply acts_of_in]. }
  assert (Hn : length (received s) = N).
  { rewrite Hrec. destruct o; simpl in *; try tauto. }
  split; [exact Hn|]. split.
  { intros j Hj. destruct (@joined_scripts d s j H Hn Hj) as (t & _ & ->).
    now rewrite script_processed, script_mark. }
  rewrite (joined_announcements H Hn), Hfw, outcome_output, Hacts, Hrec.
  unfold count.
  destruct o as [i|rs|rs|rs]; simpl in *; try contradiction;
    destruct Hok as [_ Hnil]; rewrite Hnil;
    rewrite !filter_app, !filter_join_acts by reflexivity; simpl;
    split; intros Hx; try discriminate; repeat split; auto; lia.
Qed.

(** Whatever point the Executor is at, a nil among the values received
    excludes every point at which Output is, or has been, sent on. *)
Lemma nil_received_no_output (d : Data) (s : fconfig Data) :
  inv Clone position p d s -> In None (received s) ->
  outputs (trace s) = 0.
Proof.
  intros H Hin. rewrite (outputs_exec H).
  pose proof (inv_exec H) as He. unfold exec_ok in He.
  unfold received in Hin.
  destruct (point s) eqn:Hp.
  - destruct He as (_ & _ & ->). now apply count_repeat_false.
  - destruct He as (_ & rs & _ & _ & _ & ->). now apply count_join_acts.
  - destruct He as (_ & rs & _ & _ & ->). now apply count_join_acts.
  - destruct He as (_ & rs & _ & _ & ->).
    rewrite count_app, count_join_acts by reflexivity. reflexivity.
  - destruct He as (_ & rs & _ & Hnil & Ha). rewrite Ha, recvs_join_acts in Hin.
    apply has_nil_true_iff in Hin. congruence.
  - destruct He as (o & Hok & _ & Ha). rewrite (inv_data H) in Ha.
    rewrite Ha, recvs_outcome in Hin. rewrite Ha, count_outcome_output.
    destruct o; simpl in *; auto.
    apply has_nil_true_iff in Hin. destruct Hok. congruence.
Qed.

(** C3.  Once a nil has been received from [done], nothing is ever sent
    on Output.  When the join loop ends with a nil among the [N] values,
    the Executor's next three actions, none of which is a select on the
    context, are: leave the loop, send the original on the
    processed-notification channel, mark the original processed; then it
    has returned.  And whenever [executeTask] has returned after a nil was
    received, the Executor's last two actions are that announcement and
    that mark, of the original item. *)
Theorem failed_fanout_publishes_original (d : Data) (c : bool) (s : fconfig Data) :
  reachable Clone position p d c s -> In None (received s) ->
  outputs (trace s) = 0 /\
  (forall f, point s = EJoin N f ->
     exists s1 s2 s3,
       exec_step Clone p c false s = Some s1 /\ point s1 = EFailPub /\
       exec_step Clone p c false s1 = Some s2 /\ point s2 = EFailMark /\
       exec_step Clone p c false s2 = Some s3 /\ point s3 = EReturned /\
       trace s3 =
         trace s ++ [(Executor, SendProcessed d); (Executor, MarkAsProcessed d)] /\
       exec_step Clone p true true s = None /\
       exec_step Clone p true true s1 = None /\
       exec_step Clone p true true s2 = None) /\
  (point s = EReturned ->
     length (received s) = N /\
     acts_of Executor (trace s) =
       join_acts p (Clone d) (received s) ++ [SendProcessed d; MarkAsProcessed d]).
Proof.
  intros Hreach Hin. pose proof (reachable_inv Hreach) as H.
  split; [now apply nil_received_no_output with (d := d)|]. split.
  - intros f Hp. pose proof (inv_exec H) as He. unfold exec_ok in He.
    rewrite Hp in He. destruct He as (_ & rs & _ & _ & Hf & Ha).
    assert (f = true) as ->.
    { unfold received in Hin. rewrite Ha, recvs_join_acts in Hin.
      apply has_nil_true_iff in Hin. congruence. }
    unfold exec_step. rewrite Hp, Nat.ltb_irrefl. simpl.
    do 3 eexists. repeat split; simpl; try reflexivity.
    rewrite (inv_data H), app_nil_r, <- app_assoc. reflexivity.
  - intros Hp. destruct (returned_outcome H Hp) as (o & Hok & _ & Ha).
    unfold received in *. rewrite Ha in *. rewrite recvs_outcome in *.
    destruct o as [i|rs|rs|rs]; simpl in *.
    + contradiction.
    + destruct Hok; auto.
    + apply has_nil_true_iff in Hin. destruct Hok. congruence.
    + apply has_nil_true_iff in Hin. destruct Hok. congruence.
Qed.

Lemma runner_acts_prefix (j : nat) (c : Data) (res : option Data * option string)
    (pc : rpc Data) :
  exists rest, runner_script position j c res = runner_acts position j c res pc ++ rest.
Proof.
  unfold runner_script. destruct pc; simpl; eexists;
    rewrite <- ?app_assoc; simpl; reflexivity.
Qed.

(** ** Task Runners run to their end *)

Lemma runner_step_progress (j : nat) (s s' : fconfig Data) (r : runner Data) :
  nth_error (runners s) j = Some r ->
  runner_step position p j s = Some s' ->
  exists r', nth_error (runners s') j = Some r' /\
    remaining (rpoint r') < remaining (rpoint r).
Proof.
  intros Hn H. unfold runner_step in H. rewrite Hn in H.
  assert (Hj : j < length (runners s)) by (apply nth_error_Some; congruence).
  destruct (rpoint r) eqn:Hpc.
  - destruct (nth_error (tasks p) (ridx r)) as [t|]; [|discriminate].
    injection H as <-. simpl. rewrite nth_error_set_nth_same by auto.
    eexists; split; [reflexivity|]. simpl.
    destruct (snd (Process t (rclone r))); simpl; lia.
  - injection H as <-. simpl. rewrite nth_error_set_nth_same by auto.
    eexists; split; [reflexivity|]. simpl. lia.
  - injection H as <-. simpl. rewrite nth_error_set_nth_same by auto.
    eexists; split; [reflexivity|]. simpl. lia.
  - injection H as <-. simpl. rewrite nth_error_set_nth_same by auto.
    eexists; split; [reflexivity|]. simpl. lia.
  - destruct (length (done s) <? done_cap s); [|discriminate].
    injection H as <-. simpl. rewrite nth_error_set_nth_same by auto.
    eexists; split; [reflexivity|]. simpl. lia.
  - discriminate.
Qed.

(** Scheduled alone, a Task Runner reaches its exit within [n] actions,
    where [n] bounds what it has left to do. *)
Lemma runner_completes (n : nat) (d : Data) (c : bool) (s : fconfig Data)
    (j : nat) (r : runner Data) :
  inv Clone position p d s -> nth_error (runners s) j = Some r ->
  remaining (rpoint r) <= n ->
  exists k s', k <= n /\
    run Clone position p (repeat (MFan (FRunner j)) k) (c, s) = Some (c, s') /\
    inv Clone position p d s' /\
    exists r', nth_error (runners s') j = Some r' /\ rpoint r' = RExit.
Proof.
  revert s r. induction n as [|n IH]; intros s r H Hn Hrem.
  - exists 0, s. split; [lia|]. split; [reflexivity|]. split; [exact H|].
    exists r. split; auto.
    destruct (rpoint r); simpl in Hrem; try lia. reflexivity.
  - destruct (is_exit (rpoint r)) eqn:Hex0.
    + exists 0, s. split; [lia|]. split; [reflexivity|]. split; [exact H|].
      exists r. split; auto. destruct (rpoint r); try discriminate. reflexivity.
    + destruct (@runner_enabled d s j r H Hn) as (s1 & Hs1).
      { intros Hx. rewrite Hx in Hex0. discriminate. }
      destruct (@runner_step_progress j s s1 r Hn Hs1) as (r1 & Hn1 & Hlt).
      pose proof (@runner_step_inv d j s s1 H Hs1) as H1.
      destruct (IH s1 r1 H1 Hn1) as (k & s' & Hk & Hrun & Hinv & Hex); [lia|].
      exists (S k), s'. split; [lia|]. split; [|split; [exact Hinv | exact Hex]].
      simpl. rewrite Hs1. exact Hrun.
Qed.

(** C4.  A dispatched Task Runner has, at every moment, performed a
    prefix of: call [Process]; append the error if there is one; send its
    clone on the processed-notification channel; mark the clone processed;
    send the item [Process] returned on [done].  When it has exited it has
    performed exactly that, each action once and in that order, whether
    [Process] succeeded or failed; and scheduled alone it does exit, within
    five actions. *)
Theorem runner_publishes_marks_signals (d : Data) (c : bool) (s : fconfig Data)
    (j : nat) (r : runner Data) :
  reachable Clone position p d c s -> nth_error (runners s) j = Some r ->
  exists t, nth_error (tasks p) j = Some t /\
    let res := Process t (Clone d) in
    let whole :=
      CallProcess j (Clone d) :: err_acts position (snd res)
        ++ [SendProcessed (Clone d); MarkAsProcessed (Clone d); SendDone (fst res)] in
    (exists rest, whole = acts_of (Runner j) (trace s) ++ rest) /\
    (rpoint r = RExit -> acts_of (Runner j) (trace s) = whole) /\
    (exists k s', k <= 5 /\
       run Clone position p (repeat (MFan (FRunner j)) k) (c, s) = Some (c, s') /\
       acts_of (Runner j) (trace s') = whole).
Proof.
  intros Hreach Hn. pose proof (reachable_inv Hreach) as H.
  destruct (inv_runners H j Hn) as (_ & Hc & t & Ht & _ & Ha).
  rewrite Hc, (inv_data H) in Ha.
  exists t. split; auto. simpl. repeat split.
  - rewrite Ha. apply runner_acts_prefix.
  - intros Hx. rewrite Ha, Hx. reflexivity.
  - destruct (@runner_completes 5 d c s j r H Hn) as (k & s' & Hk & Hrun & H' & r' & Hn' & Hx).
    { destruct (rpoint r); simpl; lia. }
    exists k, s'. split; [exact Hk|]. split; [exact Hrun|].
    destruct (inv_runners H' j Hn') as (_ & Hc' & t' & Ht' & _ & Ha').
    assert (t' = t) by congruence. subst t'.
    rewrite Hc', (inv_data H'), Hx in Ha'. exact Ha'.
Qed.

(** ** The Error Sink *)

Lemma sink_length (tr : list (event Data)) :
  length (sink_of tr) = count (fun e => is_append (snd e)) tr.
Proof.
  unfold sink_of, count. induction tr as [|[a x] tr IH]; simpl; auto.
  destruct x; simpl; auto.
Qed.

Lemma sink_in (a : actor) (m : string) (tr : list (event Data)) :
  In (a, AppendError m) tr -> In m (sink_of tr).
Proof.
  intros H. unfold sink_of. apply in_flat_map. exists (a, AppendError m).
  split; simpl; auto.
Qed.

(** The Executor never appends to the Error Sink. *)
Lemma exec_never_appends (d : Data) (s : fconfig Data) :
  inv Clone position p d s ->
  count is_append (acts_of Executor (trace s)) = 0.
Proof.
  intros H. pose proof (inv_exec H) as He. unfold exec_ok in He.
  destruct (point s).
  - destruct He as (_ & _ & ->). now apply count_repeat_false.
  - destruct He as (_ & rs & _ & _ & _ & ->). now apply count_join_acts.
  - destruct He as (_ & rs & _ & _ & ->). now apply count_join_acts.
  - destruct He as (_ & rs & _ & _ & ->).
    rewrite count_app, count_join_acts by reflexivity. reflexivity.
  - destruct He as (_ & rs & _ & _ & ->). now apply count_join_acts.
  - destruct He as (o & _ & _ & ->).
    destruct o; simpl; rewrite count_app;
      rewrite ?count_join_acts, ?count_repeat_false by reflexivity; reflexivity.
Qed.

Lemma sum_map_map {A B : Type} (f : B -> nat) (g : A -> B) (l : list A) :
  sum_map f (map g l) = sum_map (fun a => f (g a)) l.
Proof. unfold sum_map. induction l; simpl; auto. Qed.

Lemma sum_map_nth {A : Type} (g : A -> nat) (l : list A) :
  sum_map (fun j => match nth_error l j with Some t => g t | None => 0 end)
    (seq 0 (length l)) = sum_map g l.
Proof.
  induction l as [|a l IH]; simpl; auto.
  rewrite <- seq_shift, sum_map_map. simpl. unfold sum_map in *. simpl.
  now rewrite IH.
Qed.

Lemma length_filter_sum {A : Type} (q : A -> bool) (l : list A) :
  length (filter q l) = sum_map (fun t => if q t then 1 else 0) l.
Proof.
  unfold sum_map. induction l as [|a l IH]; simpl; auto.
  destruct (q a); simpl; rewrite IH; reflexivity.
Qed.

Lemma script_append (j : nat) (c : Data) (res : option Data * option string) :
  count is_append (runner_script position j c res) =
  if negb (is_none (snd res)) then 1 else 0.
Proof. destruct res as [x [m|]]; reflexivity. Qed.

(** After the join the sink holds one entry per failing task. *)
Lemma joined_errors (d : Data) (s : fconfig Data) :
  inv Clone position p d s -> length (received s) = N ->
  length (errors s) = length (failing Clone p d).
Proof.
  intros H Hn. rewrite (inv_errors H), sink_length.
  rewrite (count_split is_append H), (exec_never_appends H).
  destruct (joined H Hn) as (_ & -> & _ & _).
  unfold failing. rewrite length_filter_sum.
  rewrite <- (sum_map_nth
                (fun t => if negb (is_none (snd (Process t (Clone d)))) then 1 else 0)
                (tasks p)).
  simpl. apply sum_map_ext. intros j Hj. apply in_seq in Hj.
  destruct (@joined_scripts d s j H Hn) as (t & Ht & ->); [lia|].
  rewrite Ht. apply script_append.
Qed.


(** ** The join *)

Lemma received_count (s : fconfig Data) :
  count is_recv (acts_of Executor (trace s)) = length (received s).
Proof.
  unfold received, recvs, count.
  induction (acts_of Executor (trace s)) as [|x l IH]; simpl; auto.
  destruct x; simpl; auto.
Qed.


(** ** After the Executor has returned *)

Lemma runner_step_frame (j : nat) (s s' : fconfig Data) :
  runner_step position p j s = Some s' ->
  point s' = point s /\ data s' = data s /\
  length (runners s') = length (runners s) /\
  acts_of Executor (trace s') = acts_of Executor (trace s).
Proof.
  unfold runner_step. intros H.
  destruct (nth_error (runners s) j) as [r|]; [|discriminate].
  destruct (rpoint r).
  - destruct (nth_error (tasks p) (ridx r)); [|discriminate].
    injection H as <-. simpl.
    rewrite length_set_nth, acts_of_app. simpl. rewrite app_nil_r. auto.
  - injection H as <-. simpl.
    rewrite length_set_nth, acts_of_app. simpl. rewrite app_nil_r. auto.
  - injection H as <-. simpl.
    rewrite length_set_nth, acts_of_app. simpl. rewrite app_nil_r. auto.
  - injection H as <-. simpl.
    rewrite length_set_nth, acts_of_app. simpl. rewrite app_nil_r. auto.
  - destruct (length (done s) <? done_cap s); [|discriminate].
    injection H as <-. simpl.
    rewrite length_set_nth, acts_of_app. simpl. rewrite app_nil_r. auto.
  - discriminate.
Qed.

(** Once [executeTask] has returned, only Task Runners move: the Executor
    performs nothing more and no runner is spawned. *)
Lemma run_returned (ms : list move) (c c' : bool) (s s' : fconfig Data) :
  point s = EReturned ->
  run Clone position p ms (c, s) = Some (c', s') ->
  point s' = EReturned /\ data s' = data s /\
  length (runners s') = length (runners s) /\
  acts_of Executor (trace s') = acts_of Executor (trace s).
Proof.
  revert c s. induction ms as [|m ms IH]; intros c s Hp H; simpl in H.
  - injection H as <- <-. auto.
  - destruct m as [|[| |j]]; simpl in H.
    + apply IH in H; auto.
    + unfold exec_step in H. rewrite Hp in H. discriminate.
    + unfold exec_step in H. rewrite Hp in H. discriminate.
    + destruct (runner_step position p j s) as [s1|] eqn:E; [|discriminate].
      destruct (@runner_step_frame j s s1 E) as (Hp1 & Hd1 & Hl1 & Ha1).
      apply IH in H; [|congruence].
      destruct H as (? & ? & ? & ?). repeat split; congruence.
Qed.

(** C7.  While the Executor waits to publish clone [i] (it has dispatched
    [i] runners, [i < N]), the cancellation branch of its select is closed
    as long as the context is not cancelled; once it is cancelled, taking
    that branch makes [executeTask] return at once without spawning.  From
    then on, however the runners already dispatched are scheduled, the
    Executor stays returned, the number of runners stays [i], nothing has
    been received from [done], nothing has been sent on Output, and the
    Executor has neither announced nor marked the original. *)
Theorem cancel_while_publishing_aborts (d : Data) (c : bool) (s : fconfig Data)
    (i : nat) :
  reachable Clone position p d c s -> point s = EDispatch i -> i < N ->
  exec_step Clone p false true s = None /\
  exists s', exec_step Clone p true true s = Some s' /\
    point s' = EReturned /\ runners s' = runners s /\ length (runners s') = i /\
    forall ms c2 s2, run Clone position p ms (true, s') = Some (c2, s2) ->
      point s2 = EReturned /\ length (runners s2) = i /\
      received s2 = [] /\ outputs (trace s2) = 0 /\
      count is_processed (acts_of Executor (trace s2)) = 0 /\
      count is_mark (acts_of Executor (trace s2)) = 0.
Proof.
  intros Hreach Hp Hi. pose proof (reachable_inv Hreach) as H.
  pose proof (inv_exec H) as He. unfold exec_ok in He. rewrite Hp in He.
  destruct He as (_ & Hlen & Ha).
  assert (Hlt : (i <? N) = true) by now apply Nat.ltb_lt.
  unfold exec_step. rewrite Hp, Hlt. split; [reflexivity|].
  eexists. split; [reflexivity|]. simpl.
  split; [reflexivity|]. split; [reflexivity|]. split; [exact Hlen|].
  intros ms c2 s2 Hrun.
  assert (H' : inv Clone position p d (exec_to EReturned [CtxDone] s)).
  { apply exec_step_inv with (c := true) (b := true) (s := s); auto.
    unfold exec_step. now rewrite Hp, Hlt. }
  pose proof (@run_inv d ms true c2 _ s2 H' Hrun) as H2.
  destruct (@run_returned ms true c2 (exec_to EReturned [CtxDone] s) s2 eq_refl Hrun) as (Hp2 & _ & Hl2 & Ha2).
  simpl in Hl2, Ha2. rewrite acts_of_app, Ha in Ha2. simpl in Ha2.
  split; [exact Hp2|]. split; [congruence|].
  rewrite (outputs_exec H2). unfold received. rewrite Ha2.
  rewrite recvs_app, recvs_repeat_newdata, !count_app.
  rewrite !count_repeat_false by reflexivity. repeat split.
Qed.

(** C8.  At the final select all [N] values have been received and none
    is nil.  The cancellation branch is closed as long as the context is
    not cancelled; once it is cancelled, taking that branch makes
    [executeTask] return.  From then on nothing has been sent on Output and
    the Executor has neither announced nor marked the original: the
    processed-notification channel has carried the [N] announcements of
    the clones and no other. *)
Theorem cancel_before_forward_drops_silently (d : Data) (c : bool) (s : fconfig Data) :
  reachable Clone position p d c s -> point s = EForward ->
  length (received s) = N /\ has_nil (received s) = false /\
  exec_step Clone p false true s = None /\
  exists s', exec_step Clone p true true s = Some s' /\ point s' = EReturned /\
    forall ms c2 s2, run Clone position p ms (true, s') = Some (c2, s2) ->
      point s2 = EReturned /\ outputs (trace s2) = 0 /\ ~ forwarded s2 /\
      count is_processed (acts_of Executor (trace s2)) = 0 /\
      count is_mark (acts_of Executor (trace s2)) = 0 /\
      announcements (trace s2) = N.
Proof.
  intros Hreach Hp. pose proof (reachable_inv Hreach) as H.
  pose proof (inv_exec H) as He. unfold exec_ok in He. rewrite Hp in He.
  destruct He as (_ & rs & Hlen & Hnil & Ha).
  unfold received at 1 2. rewrite Ha, recvs_join_acts.
  split; [exact Hlen|]. split; [exact Hnil|].
  unfold exec_step. rewrite Hp. split; [reflexivity|].
  eexists. split; [reflexivity|]. split; [reflexivity|].
  intros ms c2 s2 Hrun.
  assert (H' : inv Clone position p d (exec_to EReturned [CtxDone] s)).
  { apply exec_step_inv with (c := true) (b := true) (s := s); auto.
    unfold exec_step. now rewrite Hp. }
  pose proof (@run_inv d ms true c2 _ s2 H' Hrun) as H2.
  destruct (@run_returned ms true c2 (exec_to EReturned [CtxDone] s) s2 eq_refl Hrun) as (Hp2 & _ & _ & Ha2).
  simpl in Ha2. rewrite acts_of_app, Ha in Ha2. simpl in Ha2.
  assert (Hr2 : length (received s2) = N).
  { unfold received. rewrite Ha2, recvs_app, recvs_join_acts. simpl.
    now rewrite app_nil_r. }
  assert (Hc : forall f, f (SendNewData (Clone (data s))) = false ->
                 (forall r, f (RecvDone r) = false) -> f CtxDone = false ->
                 count f (acts_of Executor (trace s2)) = 0).
  { intros f F1 F2 F3. rewrite Ha2, count_app, count_join_acts by auto.
    unfold count. simpl. now rewrite F3. }
  split; [exact Hp2|].
  assert (Ho : outputs (trace s2) = 0).
  { rewrite (outputs_exec H2). now apply Hc. }
  split; [exact Ho|]. split.
  - intros Hf. apply in_acts_of in Hf. rewrite Ha2 in Hf. in_acts_cases Hf.
  - rewrite (joined_announcements H2 Hr2).
    rewrite !Hc by reflexivity. auto.
Qed.

(** ** The event loop *)


(** * Further properties of [executeTask] *)

(** ** Who performed what *)

Lemma exec_acts_cases (d : Data) (s : fconfig Data) (x : action Data) :
  inv Clone position p d s -> In x (acts_of Executor (trace s)) ->
  x = SendNewData (Clone d) \/ (exists v, x = RecvDone v) \/ x = CtxDone \/
  x = SendProcessed d \/ x = MarkAsProcessed d \/ x = SendOutput d.
Proof.
  intros H Hin. pose proof (inv_exec H) as He. unfold exec_ok in He.
  rewrite (inv_data H) in He.
  assert (Hj : forall rs, In x (join_acts p (Clone d) rs) ->
                 x = SendNewData (Clone d) \/ (exists v, x = RecvDone v)).
  { intros rs Hx. now apply in_join_acts in Hx. }
  destruct (point s).
  - destruct He as (_ & _ & Ha). rewrite Ha in Hin.
    apply repeat_spec in Hin. auto.
  - destruct He as (_ & rs & _ & _ & _ & Ha). rewrite Ha in Hin.
    destruct (Hj rs Hin); auto.
  - destruct He as (_ & rs & _ & _ & Ha). rewrite Ha in Hin.
    destruct (Hj rs Hin); auto.
  - destruct He as (_ & rs & _ & _ & Ha). rewrite Ha in Hin.
    apply in_app_or in Hin. destruct Hin as [Hin|[<-|[]]]; auto 6.
    destruct (Hj rs Hin); auto.
  - destruct He as (_ & rs & _ & _ & Ha). rewrite Ha in Hin.
    destruct (Hj rs Hin); auto.
  - destruct He as (o & _ & _ & Ha). rewrite Ha in Hin.
    destruct o as [i|rs|rs|rs]; simpl in Hin; apply in_app_or in Hin;
      destruct Hin as [Hin|Hin];
      try (destruct (Hj rs Hin); auto; fail);
      try (apply repeat_spec in Hin; auto; fail);
      simpl in Hin; intuition (subst; auto 7).
Qed.

Lemma runner_acts_cases (j : nat) (c : Data) (res : option Data * option string)
    (pc : rpc Data) (x : action Data) :
  In x (runner_acts position j c res pc) ->
  x = CallProcess j c \/
  (exists e, snd res = Some e /\ x = AppendError (stage_error position e)) \/
  x = SendProcessed c \/ x = MarkAsProcessed c \/ x = SendDone (fst res).
Proof.
  destruct res as [v [e|]]; destruct pc; simpl; intuition (subst; eauto 7).
Qed.

(** Every event of the trace belongs to the Executor or to a spawned
    runner, and is one of that goroutine's own actions. *)
Lemma event_cases (d : Data) (s : fconfig Data) (a : actor) (x : action Data) :
  inv Clone position p d s -> In (a, x) (trace s) ->
  (a = Executor /\ In x (acts_of Executor (trace s))) \/
  (exists j r t, a = Runner j /\ nth_error (runners s) j = Some r /\
     nth_error (tasks p) j = Some t /\
     In x (runner_acts position j (Clone d) (Process t (Clone d)) (rpoint r))).
Proof.
  intros H Hin. pose proof (in_acts_of _ _ _ Hin) as Hx.
  destruct a as [|j]; [left; auto|right].
  pose proof (inv_actors H) as Ha. rewrite Forall_forall in Ha.
  specialize (Ha _ Hin). simpl in Ha.
  destruct (nth_error (runners s) j) as [r|] eqn:Er.
  - destruct (inv_runners H j Er) as (_ & Hc & t & Ht & _ & Hacts).
    exists j, r, t. repeat split; auto.
    rewrite Hacts, Hc, (inv_data H) in Hx. exact Hx.
  - apply nth_error_None in Er. lia.
Qed.

Ltac exec_shapes H s :=
  let He := fresh "He" in
  let Ha := fresh "Ha" in
  pose proof (inv_exec H) as He; unfold exec_ok in He;
  rewrite (inv_data H) in He; unfold received;
  destruct (point s) eqn:?Hp;
  [ destruct He as (?Hi & ?Hlen & Ha)
  | destruct He as (?Hlen & ?rs & ?Hk & ?Hle & ?Hf & Ha)
  | destruct He as (?Hlen & ?rs & ?Hk & ?Hnil & Ha)
  | destruct He as (?Hlen & ?rs & ?Hk & ?Hnil & Ha)
  | destruct He as (?Hlen & ?rs & ?Hk & ?Hnil & Ha)
  | destruct He as (?o & ?Hok & ?Hlen & Ha) ];
  rewrite Ha in *.

Lemma count_zero_not_in {A : Type} (f : A -> bool) (x : A) (l : list A) :
  count f l = 0 -> f x = true -> ~ In x l.
Proof.
  intros Hc Hf Hin. pose proof (count_pos_in f x l Hin Hf). lia.
Qed.

Lemma count_repeat_true {A : Type} (f : A -> bool) (x : A) (k : nat) :
  f x = true -> count f (repeat x k) = k.
Proof.
  intros H. unfold count. induction k; simpl; auto. rewrite H. simpl. now f_equal.
Qed.

(** X1.  At every moment of a fan-out at most one value has been sent on
    Output.  Whoever finds a value there finds the admitted item itself,
    never a clone nor an item returned by a task; it was sent by the
    Executor, which has returned, after receiving [N] values none of which
    is nil. *)
Theorem output_is_the_original_at_most_once (d : Data) (c : bool) (s : fconfig Data) :
  reachable Clone position p d c s ->
  outputs (trace s) <= 1 /\
  forall a x, In (a, SendOutput x) (trace s) ->
    a = Executor /\ x = d /\ point s = EReturned /\
    length (received s) = N /\ has_nil (received s) = false.
Proof.
  intros Hreach. pose proof (reachable_inv Hreach) as H. split.
  - rewrite (outputs_exec H). exec_shapes H s;
      rewrite ?count_app, ?count_join_acts, ?count_repeat_false by reflexivity;
      try (unfold count; simpl; lia).
    rewrite count_outcome_output. destruct o; lia.
  - intros a x Hin. destruct (event_cases _ _ H Hin) as [[-> Hx]|Hx].
    + split; auto. exec_shapes H s; try solve [in_acts_cases Hx].
      destruct o as [i|rs|rs|rs]; simpl in Hx; try solve [in_acts_cases Hx].
      rewrite recvs_outcome. destruct Hok as [Hl Hnil].
      apply in_app_or in Hx. destruct Hx as [Hx|[Hx|[]]].
      * in_acts_cases Hx.
      * injection Hx as <-. auto.
    + destruct Hx as (j & r & t & _ & _ & _ & Hx).
      apply runner_acts_cases in Hx.
      destruct Hx as [Hx|[(e & _ & Hx)|[Hx|[Hx|Hx]]]]; discriminate.
Qed.

(** X2.  A clone is announced on the new-item channel by the Executor
    alone, and what is announced is a clone of the admitted item.  The
    number of clones announced equals the number of Task Runners spawned
    and never exceeds [N]; a runner that has performed anything was
    spawned after its clone was announced. *)
Theorem clones_announced_before_dispatch (d : Data) (c : bool) (s : fconfig Data) :
  reachable Clone position p d c s ->
  count (fun e => is_newdata (snd e)) (trace s) = length (runners s) /\
  length (runners s) <= N /\
  (forall a x, In (a, SendNewData x) (trace s) -> a = Executor /\ x = Clone d) /\
  (forall j, acts_of (Runner j) (trace s) <> [] ->
     j < count is_newdata (acts_of Executor (trace s))).
Proof.
  intros Hreach. pose proof (reachable_inv Hreach) as H.
  assert (He : count is_newdata (acts_of Executor (trace s)) = length (runners s)).
  { exec_shapes H s; unfold join_acts;
      rewrite ?count_app, ?count_repeat_true, ?count_map_false by reflexivity;
      try (unfold count; simpl; lia).
    destruct o; simpl; unfold join_acts;
      rewrite ?count_app, ?count_repeat_true, ?count_map_false by reflexivity;
      unfold count; simpl in *; lia. }
  split; [|split; [exact (runners_bound H)|split]].
  - rewrite (count_split is_newdata H), He.
    rewrite sum_map_const with (k := 0); [lia|].
    intros j Hj. apply in_seq in Hj.
    destruct (nth_error (runners s) j) as [r|] eqn:Er.
    + destruct (inv_runners H j Er) as (_ & _ & t & _ & _ & ->).
      destruct (rpoint r), (Process t (rclone r)) as [v [m|]]; reflexivity.
    + apply nth_error_None in Er. lia.
  - intros a x Hin. destruct (event_cases _ _ H Hin) as [[-> Hx]|Hx].
    + split; auto. apply (exec_acts_cases _ H) in Hx.
      destruct Hx as [Hx|[(v & Hx)|[Hx|[Hx|[Hx|Hx]]]]]; try discriminate.
      now injection Hx.
    + destruct Hx as (j & r & t & _ & _ & _ & Hx).
      apply runner_acts_cases in Hx.
      destruct Hx as [Hx|[(e & _ & Hx)|[Hx|[Hx|Hx]]]]; discriminate.
  - intros j Hne. rewrite He.
    destruct (Nat.lt_ge_cases j (length (runners s))) as [Hlt|Hge]; auto.
    exfalso. apply Hne. eapply acts_of_fresh; [exact (inv_actors H)|exact Hge].
Qed.

Lemma runner_marks_after_announcing (j : nat) (c : Data)
    (res : option Data * option string) (pc : rpc Data) :
  count is_mark (runner_acts position j c res pc) <=
    count is_processed (runner_acts position j c res pc) /\
  count is_processed (runner_acts position j c res pc) <= 1.
Proof. destruct res as [v [m|]], pc; unfold count; simpl; lia. Qed.

(** X3.  Whatever is announced on the processed-notification channel, or
    marked processed, is either the admitted item, handled by the Executor
    after it received [N] values one of which is nil, or a clone of it,
    handled by a Task Runner: no runner touches the original and the
    Executor touches no clone.  No goroutine announces twice, and none
    marks before it has announced. *)
Theorem notifications_name_their_owner (d : Data) (c : bool) (s : fconfig Data) :
  reachable Clone position p d c s ->
  (forall a x,
     In (a, SendProcessed x) (trace s) \/ In (a, MarkAsProcessed x) (trace s) ->
     (a = Executor /\ x = d /\ length (received s) = N /\
      has_nil (received s) = true) \/
     (exists j, a = Runner j /\ j < N /\ x = Clone d)) /\
  (forall a,
     count is_mark (acts_of a (trace s)) <= count is_processed (acts_of a (trace s)) /\
     count is_processed (acts_of a (trace s)) <= 1).
Proof.
  intros Hreach. pose proof (reachable_inv Hreach) as H. split.
  - intros a x Hin.
    assert (Hc : (a = Executor /\
                  (In (SendProcessed x) (acts_of Executor (trace s)) \/
                   In (MarkAsProcessed x) (acts_of Executor (trace s)))) \/
                 (exists j, a = Runner j /\ j < N /\ x = Clone d)).
    { destruct Hin as [Hin|Hin];
        (destruct (event_cases _ _ H Hin) as [[-> Hx]|(j & r & t & -> & Hr & Ht & Hx)];
         [left; auto|right]);
        exists j; (split; [reflexivity|]);
        (split; [apply nth_error_Some; congruence|]);
        apply runner_acts_cases in Hx;
        destruct Hx as [Hx|[(e & _ & Hx)|[Hx|[Hx|Hx]]]]; try discriminate;
        now injection Hx. }
    destruct Hc as [[-> Hx]|Hc]; [left|right; exact Hc].
    split; auto. split.
    { destruct Hx as [Hx|Hx]; apply (exec_acts_cases _ H) in Hx;
        destruct Hx as [Hx|[(v & Hx)|[Hx|[Hx|[Hx|Hx]]]]]; try discriminate;
        now injection Hx. }
    exec_shapes H s; try solve [destruct Hx as [Hx|Hx]; in_acts_cases Hx].
    + rewrite recvs_app, recvs_join_acts. simpl. rewrite app_nil_r. auto.
    + destruct o as [i|rs|rs|rs]; simpl in Hx;
        try solve [destruct Hx as [Hx|Hx]; in_acts_cases Hx].
      rewrite recvs_outcome. exact Hok.
  - intros [|j].
    + exec_shapes H s;
        rewrite ?count_app, ?count_join_acts, ?count_repeat_false by reflexivity;
        try (unfold count; simpl; lia).
      destruct o; simpl;
        rewrite ?count_app, ?count_join_acts, ?count_repeat_false by reflexivity;
        unfold count; simpl; lia.
    + destruct (nth_error (runners s) j) as [r|] eqn:Er.
      * destruct (inv_runners H j Er) as (_ & _ & t & _ & _ & ->).
        apply runner_marks_after_announcing.
      * apply nth_error_None in Er.
        rewrite (@acts_of_fresh (length (runners s)) j (trace s) (inv_actors H)) by lia.
        unfold count; simpl; lia.
Qed.

(** ** The Error Sink, the calls and the join channel *)

Lemma sink_in_inv (m : string) (tr : list (event Data)) :
  In m (sink_of tr) -> exists a, In (a, AppendError m) tr.
Proof.
  unfold sink_of. intros H. apply in_flat_map in H.
  destruct H as ([a x] & Hin & Hx). simpl in Hx.
  destruct x; simpl in Hx; try contradiction.
  destruct Hx as [<-|[]]. eauto.
Qed.

Lemma sum_map_le {A : Type} (f g : A -> nat) (l : list A) :
  (forall a, In a l -> f a <= g a) -> sum_map f l <= sum_map g l.
Proof.
  unfold sum_map. induction l as [|a l IH]; simpl; intros H; [lia|].
  specialize (H a (or_introl eq_refl)) as Ha.
  assert (Hl : forall b, In b l -> f b <= g b) by (intros; apply H; auto).
  specialize (IH Hl). lia.
Qed.

Lemma sum_map_seq_mono (g : nat -> nat) (m n : nat) :
  m <= n -> sum_map g (seq 0 m) <= sum_map g (seq 0 n).
Proof.
  intros H. replace n with (m + (n - m)) by lia.
  rewrite seq_app, sum_map_app. lia.
Qed.


Lemma count_call_runner (j : nat) (c : Data) (res : option Data * option string)
    (pc : rpc Data) :
  count is_call (runner_acts position j c res pc) =
  match pc with RCall => 0 | _ => 1 end.
Proof. destruct res as [v [m|]], pc; reflexivity. Qed.

Lemma sum_map_runners (g : runner Data -> nat) (l : list (runner Data)) :
  sum_map (fun j => match nth_error l j with Some r => g r | None => 0 end)
    (seq 0 (length l)) = sum_map g l.
Proof. apply sum_map_nth. Qed.

(** X5.  [Process] is called by Task Runners only: runner [i] calls task
    [i], on a clone of the admitted item, and calls it at most once.  The
    number of calls made so far is the number of runners that have left
    their first program point; once [N] values have been received it is
    exactly [N]. *)
Theorem each_task_called_once_on_a_clone (d : Data) (c : bool) (s : fconfig Data) :
  reachable Clone position p d c s ->
  (forall a i x, In (a, CallProcess i x) (trace s) ->
     a = Runner i /\ i < N /\ x = Clone d) /\
  (forall j, count is_call (acts_of (Runner j) (trace s)) <= 1) /\
  count (fun e => is_call (snd e)) (trace s) = sum_map (@started Data) (runners s) /\
  (length (received s) = N -> count (fun e => is_call (snd e)) (trace s) = N).
Proof.
  intros Hreach. pose proof (reachable_inv Hreach) as H.
  assert (Hrun : forall j r, nth_error (runners s) j = Some r ->
            count is_call (acts_of (Runner j) (trace s)) = started r).
  { intros j r Er. destruct (inv_runners H j Er) as (_ & _ & t & _ & _ & ->).
    rewrite count_call_runner. reflexivity. }
  assert (Hex : count is_call (acts_of Executor (trace s)) = 0).
  { exec_shapes H s;
      rewrite ?count_app, ?count_join_acts, ?count_repeat_false by reflexivity;
      try reflexivity.
    destruct o; simpl;
      rewrite ?count_app, ?count_join_acts, ?count_repeat_false by reflexivity;
      reflexivity. }
  assert (Htot : count (fun e => is_call (snd e)) (trace s) =
                 sum_map (@started Data) (runners s)).
  { rewrite (count_split is_call H), Hex, <- sum_map_runners. simpl.
    apply sum_map_ext. intros j Hj. apply in_seq in Hj.
    destruct (nth_error (runners s) j) as [r|] eqn:Er; [now apply Hrun|].
    apply nth_error_None in Er. lia. }
  split; [|split; [|split; [exact Htot|]]].
  - intros a i x Hin.
    destruct (event_cases _ _ H Hin) as [[-> Hx]|(j & r & t & -> & Hr & Ht & Hx)].
    + apply (exec_acts_cases _ H) in Hx.
      destruct Hx as [Hx|[(v & Hx)|[Hx|[Hx|[Hx|Hx]]]]]; discriminate.
    + apply runner_acts_cases in Hx.
      destruct Hx as [Hx|[(e & _ & Hx)|[Hx|[Hx|Hx]]]]; try discriminate.
      injection Hx as -> ->. repeat split.
      apply nth_error_Some. congruence.
  - intros j. destruct (nth_error (runners s) j) as [r|] eqn:Er.
    + rewrite (Hrun j r Er). unfold started. destruct (rpoint r); lia.
    + apply nth_error_None in Er.
      rewrite (@acts_of_fresh (length (runners s)) j (trace s) (inv_actors H)) by lia.
      unfold count; simpl; lia.
  - intros Hn. rewrite Htot. destruct (joined H Hn) as (_ & Hlen & Hall & _).
    rewrite sum_map_const with (k := 1); [lia|].
    intros r Hr. rewrite Forall_forall in Hall. unfold started.
    now rewrite (Hall r Hr).
Qed.

Lemma handed_off_in (l : list (runner Data)) (v : option Data) :
  In v (handed_off p l) ->
  exists j r, nth_error l j = Some r /\ rpoint r = RExit /\ v = result_of p r.
Proof.
  unfold handed_off. intros H. apply in_flat_map in H.
  destruct H as (r & Hr & Hv). destruct (rpoint r) eqn:E; simpl in Hv;
    try contradiction.
  destruct Hv as [<-|[]]. apply In_nth_error in Hr. destruct Hr as (j & Hj).
  eauto.
Qed.

(** X6.  [done] neither loses nor invents a value: what the Executor has
    received together with what the channel still holds is, up to order,
    what the runners that have exited handed off.  So no more values are
    in flight than runners were spawned, and every value received or
    buffered is the item some task returned on the clone. *)
Theorem done_carries_the_task_results (d : Data) (c : bool) (s : fconfig Data) :
  reachable Clone position p d c s ->
  Permutation (received s ++ done s) (handed_off p (runners s)) /\
  length (received s) + length (done s) <= length (runners s) /\
  forall v, In v (received s ++ done s) ->
    exists j t, nth_error (tasks p) j = Some t /\ v = fst (Process t (Clone d)).
Proof.
  intros Hreach. pose proof (reachable_inv Hreach) as H.
  pose proof (inv_chan H) as Hp. split; [exact Hp|]. split.
  - pose proof (Permutation_length Hp) as Hl. rewrite length_app in Hl.
    pose proof (handed_off_length (runners s)). lia.
  - intros v Hv. apply (Permutation_in _ Hp) in Hv.
    apply handed_off_in in Hv. destruct Hv as (j & r & Hr & _ & ->).
    destruct (inv_runners H j Hr) as (Hi & Hc & t & Ht & _).
    exists j, t. split; auto. unfold result_of.
    now rewrite Hi, Ht, Hc, (inv_data H).
Qed.

(** X7.  In the join loop the flag [failed] is true exactly when one of
    the values received so far is nil, and the loop index counts the
    values received.  After the loop the Executor stands on the failure
    path only if a nil was received and at the final select only if none
    was. *)
Theorem failed_flag_tracks_nil (d : Data) (c : bool) (s : fconfig Data) :
  reachable Clone position p d c s ->
  (forall k f, point s = EJoin k f ->
     f = has_nil (received s) /\ length (received s) = k /\
     length (runners s) = N) /\
  (point s = EFailPub \/ point s = EFailMark -> has_nil (received s) = true) /\
  (point s = EForward -> has_nil (received s) = false).
Proof.
  intros Hreach. pose proof (reachable_inv Hreach) as H.
  exec_shapes H s; repeat split; try discriminate;
    try (intros [?|?]; discriminate);
    rewrite ?recvs_app, ?recvs_join_acts; simpl; rewrite ?app_nil_r; auto;
    congruence.
Qed.

(** ** Scheduling *)

(** X8.  When [executeTask] has returned without taking a cancellation
    branch, what it has done is a function of what the tasks return on the
    clone and of nothing else: in whatever order the runners were scheduled
    and the values received, the item is forwarded exactly when no task
    returned nil, and the numbers of values sent on Output, of
    announcements on the processed-notification channel and of entries in
    the Error Sink are fixed by the tasks' results. *)
Theorem outcome_fixed_by_the_tasks (d : Data) (c : bool) (s : fconfig Data) :
  reachable Clone position p d c s ->
  point s = EReturned -> ~ took_done s ->
  (forwarded s <-> has_nil (task_results Clone p d) = false) /\
  outputs (trace s) = (if has_nil (task_results Clone p d) then 0 else 1) /\
  announcements (trace s) = N + (if has_nil (task_results Clone p d) then 1 else 0) /\
  length (errors s) = length (failing Clone p d).
Proof.
  intros Hreach Hp Hnd. pose proof (reachable_inv Hreach) as H.
  destruct (returned_outcome H Hp) as (o & Hok & _ & Hacts).
  rewrite took_done_in, Hacts, outcome_done in Hnd.
  assert (Hrec : received s =
                 match o with
                 | Aborted _ => []
                 | Dropped rs | Abandoned rs | Forwarded rs => rs
                 end).
  { unfold received. rewrite Hacts. apply recvs_outcome. }
  assert (Hn : length (received s) = N).
  { rewrite Hrec. destruct o; simpl in *; tauto. }
  destruct (joined H Hn) as (_ & _ & _ & Hperm).
  rewrite <- (has_nil_perm Hperm), Hrec.
  assert (Hfw : forwarded s <-> In (SendOutput d) (outcome_acts Clone p d o)).
  { unfold forwarded. rewrite (inv_data H), <- Hacts.
    split; [apply in_acts_of | apply acts_of_in]. }
  rewrite Hfw, outcome_output, (joined_errors H Hn), (joined_announcements H Hn).
  rewrite (outputs_exec H), Hacts, count_outcome_output.
  destruct o as [i|rs|rs|rs]; simpl in *; try contradiction;
    destruct Hok as [_ Hnil]; rewrite Hnil;
    rewrite count_app, count_join_acts by reflexivity;
    unfold count; simpl; repeat split; auto; try lia; try discriminate;
    try contradiction.
Qed.

Lemma run_app (ms1 ms2 : list move) (st : sys Data) :
  run Clone position p (ms1 ++ ms2) st =
  match run Clone position p ms1 st with
  | Some st' => run Clone position p ms2 st'
  | None => None
  end.
Proof.
  revert st. induction ms1 as [|m ms1 IH]; intros st; simpl; auto.
  destruct (step Clone position p m st); auto.
Qed.

Lemma sum_map_set_nth_lt {A : Type} (f : A -> nat) (l : list A) (j : nat) (x r : A) :
  nth_error l j = Some r -> f x < f r ->
  sum_map f (set_nth j x l) < sum_map f l.
Proof.
  unfold sum_map. revert j. induction l as [|h l IH]; intros [|j] Hn Hlt;
    simpl in *; try discriminate.
  - injection Hn as ->. lia.
  - specialize (IH j Hn Hlt). lia.
Qed.

Lemma exited_or_pending (l : list (runner Data)) :
  Forall (fun r => rpoint r = RExit) l \/
  exists j r, nth_error l j = Some r /\ rpoint r <> RExit.
Proof.
  induction l as [|h l [IH|(j & r & Hn & Hr)]].
  - left. constructor.
  - destruct (is_exit (rpoint h)) eqn:E.
    + left. constructor; auto. destruct (rpoint h); try discriminate. reflexivity.
    + right. exists 0, h. split; auto. intros Hx. rewrite Hx in E. discriminate.
  - right. exists (S j), r. auto.
Qed.

Lemma runner_step_runners (j : nat) (s s' : fconfig Data) (r : runner Data) :
  nth_error (runners s) j = Some r ->
  runner_step position p j s = Some s' ->
  exists pc', remaining pc' < remaining (rpoint r) /\
    runners s' =
      set_nth j {| ridx := ridx r; rclone := rclone r; rpoint := pc' |} (runners s).
Proof.
  intros Hn H. unfold runner_step in H. rewrite Hn in H.
  destruct (rpoint r) eqn:Hpc.
  - destruct (nth_error (tasks p) (ridx r)) as [t|]; [|discriminate].
    injection H as <-. simpl. eexists. split; [|reflexivity].
    destruct (snd (Process t (rclone r))); simpl; lia.
  - injection H as <-. simpl. eexists. split; [|reflexivity]. simpl. lia.
  - injection H as <-. simpl. eexists. split; [|reflexivity]. simpl. lia.
  - injection H as <-. simpl. eexists. split; [|reflexivity]. simpl. lia.
  - destruct (length (done s) <? done_cap s); [|discriminate].
    injection H as <-. simpl. eexists. split; [|reflexivity]. simpl. lia.
  - discriminate.
Qed.

(** Scheduled one after the other, all the spawned runners exit. *)
Lemma live_runners (n : nat) (d : Data) (c : bool) (s : fconfig Data) :
  inv Clone position p d s ->
  sum_map (fun r => remaining (rpoint r)) (runners s) <= n ->
  exists ms s', forallb (@calm) ms = true /\
    run Clone position p ms (c, s) = Some (c, s') /\
    inv Clone position p d s' /\ point s' = point s /\
    Forall (fun r => rpoint r = RExit) (runners s').
Proof.
  revert s. induction n as [|n IH]; intros s H Hm;
    destruct (exited_or_pending (runners s)) as [Hall|(j & r & Hn & Hr)];
    try (exists [], s; split; [reflexivity|split; [reflexivity|
           split; [exact H|split; [reflexivity|exact Hall]]]]; fail).
  - pose proof (@sum_map_set_nth_lt _ (fun r => remaining (rpoint r))
                  (runners s) j r r Hn) as Hlt.
    assert (0 < remaining (rpoint r)) by (destruct (rpoint r); simpl; try lia; congruence).
    assert (remaining (rpoint r) <= sum_map (fun r => remaining (rpoint r)) (runners s)).
    { clear - Hn. revert j Hn. unfold sum_map.
      induction (runners s) as [|h l IHl]; intros [|j] Hn; simpl in *;
        try discriminate.
      - injection Hn as ->. lia.
      - specialize (IHl j Hn). lia. }
    lia.
  - destruct (@runner_enabled d s j r H Hn Hr) as (s1 & Hs1).
    destruct (@runner_step_runners j s s1 r Hn Hs1) as (pc' & Hlt & Hrs).
    pose proof (@runner_step_inv d j s s1 H Hs1) as H1.
    destruct (@runner_step_frame j s s1 Hs1) as (Hp1 & _).
    destruct (IH s1 H1) as (ms & s' & Hc & Hrun & H' & Hp' & Hall).
    { rewrite Hrs.
      pose proof (@sum_map_set_nth_lt _ (fun r => remaining (rpoint r))
                    (runners s) j
                    {| ridx := ridx r; rclone := rclone r; rpoint := pc' |} r Hn Hlt).
      lia. }
    exists (MFan (FRunner j) :: ms), s'. split; [exact Hc|].
    split; [simpl; rewrite Hs1; exact Hrun|].
    split; [exact H'|]. split; [congruence|exact Hall].
Qed.

Lemma handed_off_exited (l : list (runner Data)) :
  Forall (fun r => rpoint r = RExit) l -> length (handed_off p l) = length l.
Proof.
  induction 1 as [|r l Hr _ IH]; simpl; auto.
  rewrite Hr. simpl. f_equal. exact IH.
Qed.

(** The Executor dispatches what is left to dispatch and enters the
    join. *)
Lemma live_dispatch (n : nat) (d : Data) (c : bool) (s : fconfig Data) (i : nat) :
  inv Clone position p d s -> point s = EDispatch i -> N - i <= n ->
  exists ms s', forallb (@calm) ms = true /\
    run Clone position p ms (c, s) = Some (c, s') /\
    inv Clone position p d s' /\ exists k f, point s' = EJoin k f.
Proof.
  revert s i. induction n as [|n IH]; intros s i H Hp Hn;
    destruct (Nat.ltb_spec i N) as [Hlt|Hge]; try lia.
  - exists [MFan FExec]. eexists. split; [reflexivity|].
    assert (E : exec_step Clone p c false s =
                Some (exec_to (EJoin 0 false) [] s)).
    { unfold exec_step. rewrite Hp.
      replace (i <? N) with false by (symmetry; now apply Nat.ltb_ge).
      reflexivity. }
    split; [simpl; rewrite E; reflexivity|].
    split; [exact (@exec_step_inv d c false s _ H E)|]. simpl. eauto.
  - assert (E : exec_step Clone p c false s =
                Some (spawn {| ridx := i; rclone := Clone (data s); rpoint := RCall |}
                        (exec_to (EDispatch (S i)) [SendNewData (Clone (data s))] s))).
    { unfold exec_step. rewrite Hp.
      replace (i <? N) with true by (symmetry; now apply Nat.ltb_lt).
      reflexivity. }
    destruct (IH _ (S i) (@exec_step_inv d c false s _ H E) eq_refl) as (ms & s' & Hc & Hrun & H' & Hj);
      [lia|].
    exists (MFan FExec :: ms), s'. split; [exact Hc|].
    split; [simpl; rewrite E; exact Hrun|]. split; [exact H'|exact Hj].
  - exists [MFan FExec]. eexists. split; [reflexivity|].
    assert (E : exec_step Clone p c false s =
                Some (exec_to (EJoin 0 false) [] s)).
    { unfold exec_step. rewrite Hp.
      replace (i <? N) with false by (symmetry; now apply Nat.ltb_ge).
      reflexivity. }
    split; [simpl; rewrite E; reflexivity|].
    split; [exact (@exec_step_inv d c false s _ H E)|]. simpl. eauto.
Qed.

(** With every runner exited, the join receives what it still waits for
    and the Executor leaves the loop. *)
Lemma live_drain (n : nat) (d : Data) (c : bool) (s : fconfig Data)
    (k : nat) (f : bool) :
  inv Clone position p d s -> point s = EJoin k f -> N - k <= n ->
  Forall (fun r => rpoint r = RExit) (runners s) ->
  exists ms s', forallb (@calm) ms = true /\
    run Clone position p ms (c, s) = Some (c, s') /\
    inv Clone position p d s' /\ (point s' = EFailPub \/ point s' = EForward).
Proof.
  revert s k f. induction n as [|n IH]; intros s k f H Hp Hn Hall;
    destruct (Nat.ltb_spec k N) as [Hlt|Hge]; try lia.
  - exists [MFan FExec]. eexists. split; [reflexivity|].
    assert (E : exec_step Clone p c false s =
                Some (exec_to (if f then EFailPub else EForward) [] s)).
    { unfold exec_step. rewrite Hp.
      replace (k <? N) with false by (symmetry; now apply Nat.ltb_ge).
      reflexivity. }
    split; [simpl; rewrite E; reflexivity|].
    split; [exact (@exec_step_inv d c false s _ H E)|]. simpl. destruct f; auto.
  - pose proof (Permutation_length (inv_chan H)) as Hl.
    rewrite length_app, (handed_off_exited Hall) in Hl.
    pose proof (inv_exec H) as He. unfold exec_ok in He. rewrite Hp in He.
    destruct He as (Hlen & rs & Hk & _ & _ & Ha).
    unfold received in Hl. rewrite Ha, recvs_join_acts in Hl.
    destruct (done s) as [|x rest] eqn:Hd; [simpl in Hl; lia|].
    assert (E : exec_step Clone p c false s =
                Some (set_done rest
                        (exec_to (EJoin (S k) (if is_none x then true else f))
                           [RecvDone x] s))).
    { unfold exec_step. rewrite Hp, Hd.
      replace (k <? N) with true by (symmetry; now apply Nat.ltb_lt).
      reflexivity. }
    destruct (IH _ (S k) _ (@exec_step_inv d c false s _ H E) eq_refl)
      as (ms & s' & Hc & Hrun & H' & Hj); [lia|exact Hall|].
    exists (MFan FExec :: ms), s'. split; [exact Hc|].
    split; [simpl; rewrite E; exact Hrun|]. split; [exact H'|exact Hj].
  - exists [MFan FExec]. eexists. split; [reflexivity|].
    assert (E : exec_step Clone p c false s =
                Some (exec_to (if f then EFailPub else EForward) [] s)).
    { unfold exec_step. rewrite Hp.
      replace (k <? N) with false by (symmetry; now apply Nat.ltb_ge).
      reflexivity. }
    split; [simpl; rewrite E; reflexivity|].
    split; [exact (@exec_step_inv d c false s _ H E)|]. simpl. destruct f; auto.
Qed.

(** After the join the Executor needs nobody to return. *)
Lemma live_finish (c : bool) (s : fconfig Data) :
  point s = EFailPub \/ point s = EFailMark \/ point s = EForward \/
  point s = EReturned ->
  exists ms s', forallb (@calm) ms = true /\
    run Clone position p ms (c, s) = Some (c, s') /\ point s' = EReturned.
Proof.
  intros [Hp|[Hp|[Hp|Hp]]].
  - exists [MFan FExec; MFan FExec]. eexists. split; [reflexivity|].
    simpl. unfold exec_step. rewrite Hp. simpl. split; reflexivity.
  - exists [MFan FExec]. eexists. split; [reflexivity|].
    simpl. unfold exec_step. rewrite Hp. simpl. split; reflexivity.
  - exists [MFan FExec]. eexists. split; [reflexivity|].
    simpl. unfold exec_step. rewrite Hp. simpl. split; reflexivity.
  - exists [], s. auto.
Qed.

Lemma run_chain (ms1 ms2 : list move) (c : bool) (s s1 s2 : fconfig Data) :
  run Clone position p ms1 (c, s) = Some (c, s1) ->
  run Clone position p ms2 (c, s1) = Some (c, s2) ->
  run Clone position p (ms1 ++ ms2) (c, s) = Some (c, s2).
Proof. intros H1 H2. now rewrite run_app, H1. Qed.

(** X9.  [executeTask] cannot get stuck by its own doing.  From every
    configuration a fan-out reaches there is a schedule, in which the
    context plays no part (no cancellation, no cancellation branch), that
    makes it return: the remaining clones are dispatched, the runners run
    to their exit, each finding room on [done], and the join receives as
    many values as it waits for. *)
Theorem executeTask_can_always_return (d : Data) (c : bool) (s : fconfig Data) :
  reachable Clone position p d c s ->
  exists ms s', forallb (@calm) ms = true /\
    run Clone position p ms (c, s) = Some (c, s') /\ point s' = EReturned.
Proof.
  intros Hreach. pose proof (reachable_inv Hreach) as H.
  assert (Hjoin : forall s0 k f, inv Clone position p d s0 -> point s0 = EJoin k f ->
            exists ms s', forallb (@calm) ms = true /\
              run Clone position p ms (c, s0) = Some (c, s') /\ point s' = EReturned).
  { intros s0 k f H0 Hp0.
    destruct (@live_runners _ d c s0 H0 (Nat.le_refl _))
      as (ms1 & s1 & Hc1 & Hr1 & H1 & Hp1 & Hall).
    rewrite Hp0 in Hp1.
    destruct (@live_drain _ d c s1 k f H1 Hp1 (Nat.le_refl _) Hall)
      as (ms2 & s2 & Hc2 & Hr2 & H2 & Hp2).
    destruct (@live_finish c s2) as (ms3 & s3 & Hc3 & Hr3 & Hp3); [tauto|].
    exists (ms1 ++ ms2 ++ ms3), s3. split.
    - rewrite !forallb_app, Hc1, Hc2, Hc3. reflexivity.
    - split; [|exact Hp3].
      apply run_chain with (s1 := s1); auto.
      apply run_chain with (s1 := s2); auto. }
  destruct (point s) eqn:Hp.
  - destruct (@live_dispatch _ d c s i H Hp (Nat.le_refl _))
      as (ms1 & s1 & Hc1 & Hr1 & H1 & k & f & Hp1).
    destruct (Hjoin s1 k f H1 Hp1) as (ms2 & s2 & Hc2 & Hr2 & Hp2).
    exists (ms1 ++ ms2), s2. split.
    + rewrite forallb_app, Hc1, Hc2. reflexivity.
    + split; [|exact Hp2]. apply run_chain with (s1 := s1); auto.
  - eapply Hjoin; eauto.
  - apply live_finish. auto.
  - apply live_finish. auto.
  - apply live_finish. auto.
  - apply live_finish. auto.
Qed.

Lemma runner_step_done (j : nat) (s s' : fconfig Data) :
  runner_step position p j s = Some s' ->
  exists more, done s' = done s ++ more.
Proof.
  unfold runner_step. intros H.
  destruct (nth_error (runners s) j) as [r|]; [|discriminate].
  destruct (rpoint r).
  - destruct (nth_error (tasks p) (ridx r)); [|discriminate].
    injection H as <-. exists []. simpl. now rewrite app_nil_r.
  - injection H as <-. exists []. simpl. now rewrite app_nil_r.
  - injection H as <-. exists []. simpl. now rewrite app_nil_r.
  - injection H as <-. exists []. simpl. now rewrite app_nil_r.
  - destruct (length (done s) <? done_cap s); [|discriminate].
    injection H as <-. eexists. reflexivity.
  - discriminate.
Qed.

Lemma run_returned_done (ms : list move) (c c' : bool) (s s' : fconfig Data) :
  point s = EReturned ->
  run Clone position p ms (c, s) = Some (c', s') ->
  exists more, done s' = done s ++ more.
Proof.
  revert c s. induction ms as [|m ms IH]; intros c s Hp H; simpl in H.
  - injection H as <- <-. exists []. now rewrite app_nil_r.
  - destruct m as [|[| |j]]; simpl in H.
    + apply IH in H; auto.
    + unfold exec_step in H. rewrite Hp in H. discriminate.
    + unfold exec_step in H. rewrite Hp in H. discriminate.
    + destruct (runner_step position p j s) as [s1|] eqn:E; [|discriminate].
      destruct (@runner_step_frame j s s1 E) as (Hp1 & _).
      destruct (@runner_step_done j s s1 E) as (m1 & Hd1).
      apply IH in H; [|congruence]. destruct H as (m2 & Hd2).
      exists (m1 ++ m2). now rewrite Hd2, Hd1, app_assoc.
Qed.

(** X10.  When [executeTask] has returned before the join was complete,
    it returned on a cancellation branch while dispatching: it has received
    nothing and has spawned fewer than [N] runners.  The runners it leaves
    behind are not held back: however they are scheduled afterwards the
    Executor stays returned, nothing is ever received, and [done] only
    grows; and they can all run to their exit, after which [done] holds one
    value for each of them, which nobody will receive. *)
Theorem abandoned_runners_finish_unheard (d : Data) (c : bool) (s : fconfig Data) :
  reachable Clone position p d c s ->
  point s = EReturned -> length (received s) < N ->
  took_done s /\ received s = [] /\ length (runners s) < N /\
  length (done s) <= length (runners s) /\
  (forall ms c2 s2, run Clone position p ms (c, s) = Some (c2, s2) ->
     point s2 = EReturned /\ received s2 = [] /\
     length (runners s2) = length (runners s) /\
     exists more, done s2 = done s ++ more) /\
  (exists ms s', forallb (@calm) ms = true /\
     run Clone position p ms (c, s) = Some (c, s') /\
     Forall (fun r => rpoint r = RExit) (runners s') /\
     received s' = [] /\ length (done s') = length (runners s)).
Proof.
  intros Hreach Hp Hn. pose proof (reachable_inv Hreach) as H.
  destruct (returned_outcome H Hp) as (o & Hok & Hlen & Hacts).
  assert (Hrec : received s =
                 match o with
                 | Aborted _ => []
                 | Dropped rs | Abandoned rs | Forwarded rs => rs
                 end).
  { unfold received. rewrite Hacts. apply recvs_outcome. }
  destruct o as [i|rs|rs|rs]; simpl in *;
    try (rewrite Hrec in Hn; destruct Hok; lia).
  assert (Hlater : forall ms c2 s2,
            run Clone position p ms (c, s) = Some (c2, s2) ->
            point s2 = EReturned /\ received s2 = [] /\
            length (runners s2) = length (runners s) /\
            exists more, done s2 = done s ++ more).
  { intros ms c2 s2 Hrun.
    destruct (@run_returned ms c c2 s s2 Hp Hrun) as (Hp2 & _ & Hl2 & Ha2).
    split; [exact Hp2|]. split; [unfold received; rewrite Ha2; exact Hrec|].
    split; [exact Hl2|]. eapply run_returned_done; eauto. }
  split.
  { rewrite took_done_in, Hacts. apply in_or_app. right. simpl. auto. }
  split; [exact Hrec|]. split; [lia|]. split.
  { pose proof (Permutation_length (inv_chan H)) as Hl.
    rewrite length_app in Hl. pose proof (handed_off_length (runners s)). lia. }
  split; [exact Hlater|].
  destruct (@live_runners _ d c s H (Nat.le_refl _))
    as (ms & s' & Hc & Hrun & H' & _ & Hall).
  destruct (Hlater ms c s' Hrun) as (_ & Hrec' & Hl' & _).
  exists ms, s'. split; [exact Hc|]. split; [exact Hrun|].
  split; [exact Hall|]. split; [exact Hrec'|].
  pose proof (Permutation_length (inv_chan H')) as Hl.
  rewrite length_app, Hrec', (handed_off_exited Hall) in Hl. simpl in Hl. lia.
Qed.

(** * Further properties of [Run] *)

Lemma Run_app (ms1 ms2 : list (rmove Data)) (g : rconfig Data) :
  Run Clone position p (ms1 ++ ms2) g =
  match Run Clone position p ms1 g with
  | Some g' => Run Clone position p ms2 g'
  | None => None
  end.
Proof.
  revert g. induction ms1 as [|m ms1 IH]; intros g; simpl; auto.
  destruct (Run_step Clone position p m g); auto.
Qed.

Lemma in_set_nth {A : Type} (k : nat) (y x : A) (l : list A) :
  In x (set_nth k y l) -> x = y \/ In x l.
Proof.
  revert k. induction l as [|h l IH]; intros [|k]; simpl; auto.
  - intros [<-|H]; auto.
  - intros [<-|H]; auto. destruct (IH k H); auto.
Qed.

Lemma nth_error_set_nth_cases {A : Type} (k j : nat) (y x : A) (l : list A) :
  nth_error (set_nth k y l) j = Some x ->
  (j = k /\ x = y /\ k < length l) \/ (j <> k /\ nth_error l j = Some x).
Proof.
  intros H. destruct (Nat.eq_dec k j) as [<-|Hne].
  - left. assert (Hk : k < length l).
    { rewrite <- (length_set_nth k y l). apply nth_error_Some. congruence. }
    rewrite nth_error_set_nth_same in H by exact Hk. split; auto. split; auto.
    congruence.
  - right. rewrite nth_error_set_nth_other in H by exact Hne. auto.
Qed.

Lemma reachable_step (d : Data) (c : bool) (m : fmove) (f f' : fconfig Data) :
  reachable Clone position p d c f ->
  fstep Clone position p c m f = Some f' ->
  reachable Clone position p d c f'.
Proof.
  intros (c0 & ms & Hrun) Hs. exists c0, (ms ++ [MFan m]).
  rewrite run_app, Hrun. simpl. now rewrite Hs.
Qed.

Lemma reachable_cancel (d : Data) (c : bool) (f : fconfig Data) :
  reachable Clone position p d c f -> reachable Clone position p d true f.
Proof.
  intros (c0 & ms & Hrun). exists c0, (ms ++ [MCancel]).
  rewrite run_app, Hrun. reflexivity.
Qed.

Lemma runner_step_trace (j : nat) (s s' : fconfig Data) :
  runner_step position p j s = Some s' ->
  exists i x, trace s' = trace s ++ [(Runner i, x)] /\ is_output x = false.
Proof.
  unfold runner_step. intros H.
  destruct (nth_error (runners s) j) as [r|]; [|discriminate].
  destruct (rpoint r).
  - destruct (nth_error (tasks p) (ridx r)); [|discriminate].
    injection H as <-. simpl. eauto.
  - injection H as <-. simpl. eauto.
  - injection H as <-. simpl. eauto.
  - injection H as <-. simpl. eauto.
  - destruct (length (done s) <? done_cap s); [|discriminate].
    injection H as <-. simpl. eauto.
  - discriminate.
Qed.

(** A fan-out whose Executor has returned stays so, keeps its item and
    sends nothing more on Output. *)
Lemma fstep_returned (c : bool) (m : fmove) (f f' : fconfig Data) :
  point f = EReturned -> fstep Clone position p c m f = Some f' ->
  point f' = EReturned /\ data f' = data f /\
  outputs (trace f') = outputs (trace f).
Proof.
  intros Hp H. destruct m as [| |j]; simpl in H.
  - unfold exec_step in H. rewrite Hp in H. discriminate.
  - unfold exec_step in H. rewrite Hp in H. discriminate.
  - destruct (@runner_step_frame j f f' H) as (Hp' & Hd' & _).
    destruct (@runner_step_trace j f f' H) as (i & x & Ht & Hx).
    split; [congruence|]. split; [exact Hd'|].
    unfold outputs. rewrite Ht, count_app. unfold count at 2. simpl.
    rewrite Hx. simpl. lia.
Qed.

Lemma fstep_data (c : bool) (m : fmove) (f f' : fconfig Data) :
  fstep Clone position p c m f = Some f' -> data f' = data f.
Proof.
  intros H. destruct m as [| |j]; simpl in H.
  - unfold exec_step in H.
    destruct (point f); repeat (destruct (_ <? _)); try destruct c;
      try destruct (done f); try discriminate; injection H as <-; reflexivity.
  - unfold exec_step in H.
    destruct (point f); repeat (destruct (_ <? _)); try destruct c;
      try destruct (done f); try discriminate; injection H as <-; reflexivity.
  - now destruct (@runner_step_frame j f f' H) as (_ & Hd' & _).
Qed.

Lemma at_select_returned (g : rconfig Data) :
  Run_inv Clone position p g -> at_select g = true ->
  stopped g = false /\ Forall (fun f => point f = EReturned) (fanouts g).
Proof.
  intros [H1 _] Hs. unfold at_select in Hs. apply andb_true_iff in Hs.
  destruct Hs as [Hst Hhd]. apply negb_true_iff in Hst. split; auto.
  apply Forall_forall. intros f Hf. apply In_nth_error in Hf.
  destruct Hf as (k & Hk).
  destruct (point f) eqn:Hp; auto;
    (destruct (H1 k f Hk) as [-> _]; [congruence|];
     destruct (fanouts g) as [|h l]; [discriminate|];
     simpl in Hk; injection Hk as ->; rewrite Hp in Hhd; discriminate).
Qed.

Lemma begin_fanout_inv (d : Data) (g : rconfig Data) :
  Run_inv Clone position p g -> at_select g = true -> Run_inv Clone position p (begin_fanout p d g).
Proof.
  intros Hinv Hs. destruct (at_select_returned Hinv Hs) as [Hst Hall].
  destruct Hinv as [H1 H2]. split; simpl.
  - intros [|k] f Hk Hp; [auto|]. simpl in Hk. exfalso. apply Hp.
    rewrite Forall_forall in Hall. apply Hall. eapply nth_error_In; eauto.
  - intros f [<-|Hf]; [|auto]. exists (ctx_done g), []. reflexivity.
Qed.

Lemma stop_inv (g : rconfig Data) :
  Run_inv Clone position p g -> at_select g = true -> Run_inv Clone position p (stop g).
Proof.
  intros Hinv Hs. destruct (at_select_returned Hinv Hs) as [Hst Hall].
  destruct Hinv as [H1 H2]. split; simpl; auto.
  intros k f Hk Hp. exfalso. apply Hp.
  rewrite Forall_forall in Hall. apply Hall. eapply nth_error_In; eauto.
Qed.

Lemma Run_step_inv (m : rmove Data) (g g' : rconfig Data) :
  Run_inv Clone position p g -> Run_step Clone position p m g = Some g' -> Run_inv Clone position p g'.
Proof.
  intros Hinv H. destruct m as [| |x|x|k m]; simpl in H.
  - injection H as <-. destruct Hinv as [H1 H2]. split; simpl; auto.
    intros f Hf. eapply reachable_cancel; eauto.
  - destruct (at_select g) eqn:Hs; simpl in H; [|discriminate].
    destruct (ctx_done g); [|discriminate]. injection H as <-.
    now apply stop_inv.
  - destruct (at_select g) eqn:Hs; [|discriminate].
    destruct x as [d|]; injection H as <-.
    + now apply begin_fanout_inv.
    + now apply stop_inv.
  - destruct (at_select g) eqn:Hs; [|discriminate].
    destruct x as [[d|]|]; injection H as <-; auto.
    now apply begin_fanout_inv.
  - destruct (nth_error (fanouts g) k) as [f|] eqn:Hk; [|discriminate].
    destruct (fstep Clone position p (ctx_done g) m f) as [f'|] eqn:Hf;
      [|discriminate].
    injection H as <-. destruct Hinv as [H1 H2]. split; simpl.
    + intros j f0 Hj Hp.
      apply nth_error_set_nth_cases in Hj.
      destruct Hj as [(-> & -> & _)|(_ & Hj)]; [|eauto].
      apply (H1 k f Hk). intros Hr.
      destruct (@fstep_returned (ctx_done g) m f f' Hr Hf) as (Hr' & _). contradiction.
    + intros f0 Hf0. apply in_set_nth in Hf0. destruct Hf0 as [->|Hf0]; [|auto].
      rewrite (@fstep_data (ctx_done g) m f f' Hf).
      eapply reachable_step; [|exact Hf]. apply H2. eapply nth_error_In; eauto.
Qed.

Lemma Run_inv_run (ms : list (rmove Data)) (g g' : rconfig Data) :
  Run_inv Clone position p g -> Run Clone position p ms g = Some g' -> Run_inv Clone position p g'.
Proof.
  revert g. induction ms as [|m ms IH]; intros g Hinv H; simpl in H.
  - now injection H as <-.
  - destruct (Run_step Clone position p m g) as [g1|] eqn:E; [|discriminate].
    eapply IH; [|exact H]. eapply Run_step_inv; eauto.
Qed.

Lemma Run_reachable_inv (g : rconfig Data) :
  Run_reachable Clone position p g -> Run_inv Clone position p g.
Proof.
  intros (c0 & ms & H). eapply Run_inv_run; [|exact H].
  split; simpl.
  - intros [|k] f Hk; discriminate.
  - intros f [].
Qed.

Lemma map_set_nth_same {A B : Type} (h : A -> B) (k : nat) (x y : A) (l : list A) :
  nth_error l k = Some x -> h y = h x -> map h (set_nth k y l) = map h l.
Proof.
  revert k. induction l as [|a l IH]; intros [|k] Hn He; simpl in *;
    try discriminate; auto.
  - injection Hn as ->. now rewrite He.
  - f_equal. eauto.
Qed.

Lemma Forall_set_nth {A : Type} (P : A -> Prop) (k : nat) (y : A) (l : list A) :
  Forall P l -> P y -> Forall P (set_nth k y l).
Proof.
  intros Hl Hy. apply Forall_forall. intros x Hx.
  apply in_set_nth in Hx. destruct Hx as [->|Hx]; auto.
  rewrite Forall_forall in Hl. auto.
Qed.

Lemma inv_outputs_le_one (d : Data) (s : fconfig Data) :
  inv Clone position p d s -> outputs (trace s) <= 1.
Proof.
  intros H. rewrite (outputs_exec H). exec_shapes H s;
    rewrite ?count_app, ?count_join_acts, ?count_repeat_false by reflexivity;
    try (unfold count; simpl; lia).
  rewrite count_outcome_output. destruct o; lia.
Qed.

Lemma inv_output_event (d : Data) (s : fconfig Data) (a : actor) (x : Data) :
  inv Clone position p d s -> In (a, SendOutput x) (trace s) ->
  a = Executor /\ x = d.
Proof.
  intros H Hin.
  destruct (event_cases _ _ H Hin) as [[-> Hx]|(j & r & t & _ & _ & _ & Hx)].
  - split; auto. apply (exec_acts_cases _ H) in Hx.
    destruct Hx as [Hx|[(v & Hx)|[Hx|[Hx|[Hx|Hx]]]]]; try discriminate.
    now injection Hx.
  - apply runner_acts_cases in Hx.
    destruct Hx as [Hx|[(e & _ & Hx)|[Hx|[Hx|Hx]]]]; discriminate.
Qed.


(** X12.  The running stage sends at most one item on Output for each
    item it admitted, and what it sends is that item, sent by the Executor
    of its fan-out. *)
Theorem Run_outputs_at_most_one_each (g : rconfig Data) :
  Run_reachable Clone position p g ->
  Forall (fun n => n <= 1) (Run_outputs g) /\
  forall f a x, In f (fanouts g) -> In (a, SendOutput x) (trace f) ->
    a = Executor /\ x = data f.
Proof.
  intros Hg. destruct (Run_reachable_inv Hg) as [_ H2]. split.
  - unfold Run_outputs. apply Forall_forall. intros n Hn.
    apply in_map_iff in Hn. destruct Hn as (f & <- & Hf).
    eapply inv_outputs_le_one, reachable_inv. eauto.
  - intros f a x Hf Hin. eapply inv_output_event; [|exact Hin].
    eapply reachable_inv. eauto.
Qed.

(** X13.  Admissions are serialized.  Only the latest fan-out can have
    its Executor still running, and not even that one once [Run] has
    returned; an item is admitted, from the input channel or from the
    Queue, only when every earlier Executor has returned, and its fan-out
    starts in the initial configuration of [executeTask]. *)
Theorem Run_one_fanout_in_flight (g : rconfig Data) :
  Run_reachable Clone position p g ->
  (forall k f, nth_error (fanouts g) k = Some f -> point f <> EReturned ->
     k = 0 /\ stopped g = false) /\
  (forall m d g',
     m = RInput (Some d) \/ m = RQueue (Some (QData d)) ->
     Run_step Clone position p m g = Some g' ->
     Forall (fun f => point f = EReturned) (fanouts g) /\
     fanouts g' = executeTask_init p d :: fanouts g).
Proof.
  intros Hg. pose proof (Run_reachable_inv Hg) as Hinv. split.
  - exact (proj1 Hinv).
  - intros m d g' Hm H.
    assert (Hs : at_select g = true /\ g' = begin_fanout p d g).
    { destruct Hm as [-> | ->]; simpl in H;
        destruct (at_select g); try discriminate; injection H as <-; auto. }
    destruct Hs as [Hs ->].
    destruct (at_select_returned Hinv Hs) as [_ Hall]. auto.
Qed.

Lemma Run_stopped (ms : list (rmove Data)) (g g' : rconfig Data) :
  stopped g = true -> Forall (fun f => point f = EReturned) (fanouts g) ->
  Run Clone position p ms g = Some g' ->
  stopped g' = true /\ Forall (fun f => point f = EReturned) (fanouts g') /\
  map (@data Data) (fanouts g') = map (@data Data) (fanouts g) /\
  Run_outputs g' = Run_outputs g.
Proof.
  revert g. induction ms as [|m ms IH]; intros g Hst Hall H; simpl in H.
  - injection H as <-. auto.
  - assert (Hsel : at_select g = false) by (unfold at_select; now rewrite Hst).
    destruct m as [| |x|x|k m]; simpl in H; rewrite ?Hsel in H; simpl in H;
      try discriminate.
    + apply IH in H; auto.
    + destruct (nth_error (fanouts g) k) as [f|] eqn:Hk; [|discriminate].
      destruct (fstep Clone position p (ctx_done g) m f) as [f'|] eqn:Hf;
        [|discriminate].
      assert (Hr : point f = EReturned).
      { rewrite Forall_forall in Hall. apply Hall. eapply nth_error_In; eauto. }
      destruct (@fstep_returned (ctx_done g) m f f' Hr Hf) as (Hr' & Hd' & Ho').
      apply IH in H; simpl; auto using Forall_set_nth.
      destruct H as (H1 & H2 & H3 & H4). simpl in H3, H4.
      split; [exact H1|]. split; [exact H2|]. split.
      * rewrite H3. now apply map_set_nth_same with (x := f).
      * rewrite H4. unfold Run_outputs. simpl.
        now apply map_set_nth_same with (x := f).
Qed.

(** X14.  Once [Run] has returned, on cancellation or because the input
    channel was closed, it admits nothing and sends nothing: whatever is
    scheduled afterwards (only runners left behind can move), the stage
    stays stopped, holds the same fan-outs for the same items, every
    Executor stays returned and the numbers of items sent on Output do not
    change. *)
Theorem Run_stopped_for_good (g : rconfig Data) :
  Run_reachable Clone position p g -> stopped g = true ->
  Forall (fun f => point f = EReturned) (fanouts g) /\
  forall ms g', Run Clone position p ms g = Some g' ->
    stopped g' = true /\ Forall (fun f => point f = EReturned) (fanouts g') /\
    map (@data Data) (fanouts g') = map (@data Data) (fanouts g) /\
    Run_outputs g' = Run_outputs g.
Proof.
  intros Hg Hst. destruct (Run_reachable_inv Hg) as [H1 _].
  assert (Hall : Forall (fun f => point f = EReturned) (fanouts g)).
  { apply Forall_forall. intros f Hf. apply In_nth_error in Hf.
    destruct Hf as (k & Hk). destruct (point f) eqn:Hp; auto;
      (destruct (H1 k f Hk) as [_ Hs]; [congruence|congruence]). }
  split; [exact Hall|]. intros ms g' H. eapply Run_stopped; eauto.
Qed.

(** X15.  A Queue signal whose pop finds the Queue empty, or finds a
    value that is not a [Data], changes nothing: [Run] goes on as if the
    signal had not fired. *)
Theorem Run_tolerates_empty_pop (ms1 ms2 : list (rmove Data))
    (x : option (queued Data)) (g g' : rconfig Data) :
  skipped x = true ->
  Run Clone position p (ms1 ++ RQueue x :: ms2) g = Some g' ->
  Run Clone position p (ms1 ++ ms2) g = Some g'.
Proof.
  intros Hx H. rewrite Run_app in *.
  destruct (Run Clone position p ms1 g) as [g1|]; [|discriminate].
  simpl in H. destruct (at_select g1); [|discriminate].
  destruct x as [[d|]|]; try discriminate; exact H.
Qed.

(** X16.  [Run] starts exactly one fan-out for each item it admits,
    whether from the input channel or from the Queue, and in the order of
    admission: the items of the fan-outs it holds, latest first, are the
    items admitted by its schedule, in reverse. *)
Theorem Run_admits_each_item_once_in_order (ms : list (rmove Data))
    (g g' : rconfig Data) :
  Run Clone position p ms g = Some g' ->
  map (@data Data) (fanouts g') =
    rev (admissions ms) ++ map (@data Data) (fanouts g).
Proof.
  revert g. induction ms as [|m ms IH]; intros g H; simpl in H.
  - now injection H as <-.
  - destruct (Run_step Clone position p m g) as [g1|] eqn:E; [|discriminate].
    apply IH in H. rewrite H. clear H IH.
    destruct m as [| |x|x|k m]; simpl in E.
    + injection E as <-. reflexivity.
    + destruct (at_select g && ctx_done g); [|discriminate].
      injection E as <-. reflexivity.
    + destruct (at_select g); [|discriminate].
      destruct x as [d|]; injection E as <-; simpl; auto.
      now rewrite <- app_assoc.
    + destruct (at_select g); [|discriminate].
      destruct x as [[d|]|]; injection E as <-; simpl; auto.
      now rewrite <- app_assoc.
    + destruct (nth_error (fanouts g) k) as [f|] eqn:Hk; [|discriminate].
      destruct (fstep Clone position p (ctx_done g) m f) as [f'|] eqn:Hf;
        [|discriminate].
      injection E as <-. simpl. f_equal.
      apply map_set_nth_same with (x := f); auto.
      exact (@fstep_data (ctx_done g) m f f' Hf).
Qed.

End Proofs.

(** C10.  [Parallel] given no task returns nil; given at least one task
    it returns a stage that holds these tasks and whose [ID] is the
    identifier it was given. *)
Theorem Parallel_nil_or_stage (Data : Type) (i : string) :
  Parallel i (@nil (Task Data)) = None /\
  forall (t : Task Data) (ts : list (Task Data)),
    exists q, Parallel i (t :: ts) = Some q /\ ID q = i /\ tasks q = t :: ts.
Proof.
  split; [reflexivity|]. intros t ts. eexists. split; [reflexivity|]. auto.
Qed.

(** * The claims on concrete fan-outs *)

Module Witness.
Import Example.

Lemma reach (q : parallel nat) (ms : list move) :
  run clone 2 q ms (false, executeTask_init q 7) = Some (after q ms) ->
  reachable clone 2 q 7 (fst (after q ms)) (state_after q ms).
Proof.
  intros H. exists false, ms. rewrite H. unfold state_after.
  destruct (after q ms). reflexivity.
Qed.

(** One task, which succeeds; the item is forwarded. *)
Lemma forward_iff_all_succeeded_witness :
  let s := state_after p1 sched_forward1 in
  reachable clone 2 p1 7 false s /\ point s = EReturned /\
  length (received s) = 1 /\
  Permutation (received s) (task_results clone p1 7) /\
  (forwarded s <-> has_nil (received s) = false /\ ~ took_done s) /\
  (forwarded s -> outputs (trace s) = 1) /\
  (has_nil (received s) = true -> outputs (trace s) = 0).
Proof.
  assert (Hr : reachable clone 2 p1 7 false (state_after p1 sched_forward1))
    by (apply (reach p1 sched_forward1); vm_compute; reflexivity).
  assert (Hp : point (state_after p1 sched_forward1) = EReturned)
    by (vm_compute; reflexivity).
  assert (Hn : length (received (state_after p1 sched_forward1)) = length (tasks p1))
    by (vm_compute; reflexivity).
  split; [exact Hr|]. split; [exact Hp|]. split; [exact Hn|].
  exact (@forward_iff_all_succeeded nat clone 2 p1 7 false _ Hr Hp Hn).
Defined.

(** One task, which succeeds; the context is cancelled and the final
    select takes the cancellation branch: all the values received are
    non-nil and yet the item is not sent on Output. *)
Lemma forward_iff_all_succeeded_counterexample :
  let s := state_after p1 sched_abandon1 in
  reachable clone 2 p1 7 true s /\ point s = EReturned /\
  length (received s) = length (tasks p1) /\
  ~ (forwarded s <-> has_nil (received s) = false).
Proof.
  split; [apply (reach p1 sched_abandon1); vm_compute; reflexivity|].
  split; [vm_compute; reflexivity|]. split; [vm_compute; reflexivity|].
  intros [_ H].
  assert (Hnil : has_nil (received (state_after p1 sched_abandon1)) = false)
    by (vm_compute; reflexivity).
  assert (Hout : outputs (trace (state_after p1 sched_abandon1)) = 0)
    by (vm_compute; reflexivity).
  apply H, forwarded_outputs in Hnil. lia.
Qed.

(** Three tasks, the middle one fails with the error boom: four
    announcements, the original among them. *)
Lemma original_processed_once_when_dropped_witness :
  let s := state_after p3 sched_drop3 in
  reachable clone 2 p3 7 false s /\ point s = EReturned /\ ~ took_done s /\
  length (received s) = 3 /\
  (forall j, j < 3 ->
     filter is_processed (acts_of (Runner j) (trace s)) = [SendProcessed (clone 7)] /\
     filter is_mark (acts_of (Runner j) (trace s)) = [MarkAsProcessed (clone 7)]) /\
  (has_nil (received s) = true ->
     filter is_processed (acts_of Executor (trace s)) = [SendProcessed 7] /\
     filter is_mark (acts_of Executor (trace s)) = [MarkAsProcessed 7] /\
     announcements (trace s) = 3 + 1) /\
  (has_nil (received s) = false ->
     forwarded s /\
     filter is_processed (acts_of Executor (trace s)) = [] /\
     filter is_mark (acts_of Executor (trace s)) = [] /\
     announcements (trace s) = 3).
Proof.
  assert (Hr : reachable clone 2 p3 7 false (state_after p3 sched_drop3))
    by (apply (reach p3 sched_drop3); vm_compute; reflexivity).
  assert (Hp : point (state_after p3 sched_drop3) = EReturned)
    by (vm_compute; reflexivity).
  assert (Hb : existsb is_ctx_done
                 (acts_of Executor (trace (state_after p3 sched_drop3))) = false)
    by (vm_compute; reflexivity).
  assert (Hd : ~ took_done (state_after p3 sched_drop3))
    by (unfold took_done; rewrite Hb; discriminate).
  split; [exact Hr|]. split; [exact Hp|]. split; [exact Hd|].
  exact (@original_processed_once_when_dropped nat clone 2 p3 7 false _ Hr Hp Hd).
Defined.

(** One task, which succeeds; the fan-out resolves by forwarding, without
    any cancellation.  Nobody has marked or announced the original (item
    7): the only announcement is the clone's. *)
Lemma original_processed_once_when_dropped_counterexample :
  let s := state_after p1 sched_forward1 in
  reachable clone 2 p1 7 false s /\ point s = EReturned /\ ~ took_done s /\
  has_nil (received s) = false /\ forwarded s /\
  count is_mark (acts_of Executor (trace s)) = 0 /\
  count is_processed (acts_of Executor (trace s)) = 0 /\
  count (touches 7) (trace s) = 0 /\
  announcements (trace s) = 1 /\
  announcements (trace s) <> length (tasks p1) + 1.
Proof.
  assert (Hr : reachable clone 2 p1 7 false (state_after p1 sched_forward1))
    by (apply (reach p1 sched_forward1); vm_compute; reflexivity).
  assert (Hp : point (state_after p1 sched_forward1) = EReturned)
    by (vm_compute; reflexivity).
  assert (Hb : existsb is_ctx_done
                 (acts_of Executor (trace (state_after p1 sched_forward1))) = false)
    by (vm_compute; reflexivity).
  assert (Hd : ~ took_done (state_after p1 sched_forward1))
    by (unfold took_done; rewrite Hb; discriminate).
  assert (Hnil : has_nil (received (state_after p1 sched_forward1)) = false)
    by (vm_compute; reflexivity).
  assert (Ha : announcements (trace (state_after p1 sched_forward1)) = 1)
    by (vm_compute; reflexivity).
  split; [exact Hr|]. split; [exact Hp|]. split; [exact Hd|].
  split; [exact Hnil|].
  split; [vm_compute; repeat first [left; reflexivity | right]|].
  split; [vm_compute; reflexivity|]. split; [vm_compute; reflexivity|].
  split; [vm_compute; reflexivity|]. split; [exact Ha|].
  rewrite Ha. discriminate.
Qed.

(** Three tasks, the middle one fails; the join loop has just ended. *)
Lemma failed_fanout_publishes_original_witness :
  let s := state_after p3 sched_joined3 in
  reachable clone 2 p3 7 false s /\ In None (received s) /\
  outputs (trace s) = 0 /\
  (forall f, point s = EJoin 3 f ->
     exists s1 s2 s3,
       exec_step clone p3 false false s = Some s1 /\ point s1 = EFailPub /\
       exec_step clone p3 false false s1 = Some s2 /\ point s2 = EFailMark /\
       exec_step clone p3 false false s2 = Some s3 /\ point s3 = EReturned /\
       trace s3 =
         trace s ++ [(Executor, SendProcessed 7); (Executor, MarkAsProcessed 7)] /\
       exec_step clone p3 true true s = None /\
       exec_step clone p3 true true s1 = None /\
       exec_step clone p3 true true s2 = None) /\
  (point s = EReturned ->
     length (received s) = 3 /\
     acts_of Executor (trace s) =
       join_acts p3 (clone 7) (received s) ++ [SendProcessed 7; MarkAsProcessed 7]).
Proof.
  assert (Hr : reachable clone 2 p3 7 false (state_after p3 sched_joined3))
    by (apply (reach p3 sched_joined3); vm_compute; reflexivity).
  assert (Hin : In None (received (state_after p3 sched_joined3)))
    by (vm_compute; left; reflexivity).
  split; [exact Hr|]. split; [exact Hin|].
  exact (@failed_fanout_publishes_original nat clone 2 p3 7 false _ Hr Hin).
Defined.

(** The runner of the failing task, standing before [done <- d]. *)
Lemma runner_publishes_marks_signals_witness :
  let s := state_after p3 sched_before_send3 in
  let r := {| ridx := 1; rclone := 8; rpoint := RDone None |} in
  reachable clone 2 p3 7 false s /\ nth_error (runners s) 1 = Some r /\
  exists t, nth_error (tasks p3) 1 = Some t /\
    let res := Process t (clone 7) in
    let whole :=
      CallProcess 1 (clone 7) :: err_acts 2 (snd res)
        ++ [SendProcessed (clone 7); MarkAsProcessed (clone 7); SendDone (fst res)] in
    (exists rest, whole = acts_of (Runner 1) (trace s) ++ rest) /\
    (rpoint r = RExit -> acts_of (Runner 1) (trace s) = whole) /\
    (exists k s', k <= 5 /\
       run clone 2 p3 (repeat (MFan (FRunner 1)) k) (false, s) = Some (false, s') /\
       acts_of (Runner 1) (trace s') = whole).
Proof.
  assert (Hr : reachable clone 2 p3 7 false (state_after p3 sched_before_send3))
    by (apply (reach p3 sched_before_send3); vm_compute; reflexivity).
  assert (Hn : nth_error (runners (state_after p3 sched_before_send3)) 1 =
               Some {| ridx := 1; rclone := 8; rpoint := RDone None |})
    by (vm_compute; reflexivity).
  split; [exact Hr|]. split; [exact Hn|].
  exact (@runner_publishes_marks_signals nat clone 2 p3 7 false _ 1 _ Hr Hn).
Defined.



(** One of three clones is published; the context is then cancelled. *)
Lemma cancel_while_publishing_aborts_witness :
  let s := state_after p3 sched_publishing3 in
  reachable clone 2 p3 7 false s /\ point s = EDispatch 1 /\ 1 < 3 /\
  exec_step clone p3 false true s = None /\
  exists s', exec_step clone p3 true true s = Some s' /\
    point s' = EReturned /\ runners s' = runners s /\ length (runners s') = 1 /\
    forall ms c2 s2, run clone 2 p3 ms (true, s') = Some (c2, s2) ->
      point s2 = EReturned /\ length (runners s2) = 1 /\
      received s2 = [] /\ outputs (trace s2) = 0 /\
      count is_processed (acts_of Executor (trace s2)) = 0 /\
      count is_mark (acts_of Executor (trace s2)) = 0.
Proof.
  assert (Hr : reachable clone 2 p3 7 false (state_after p3 sched_publishing3))
    by (apply (reach p3 sched_publishing3); vm_compute; reflexivity).
  assert (Hp : point (state_after p3 sched_publishing3) = EDispatch 1)
    by (vm_compute; reflexivity).
  assert (Hi : 1 < length (tasks p3)) by (simpl; lia).
  split; [exact Hr|]. split; [exact Hp|]. split; [exact Hi|].
  exact (@cancel_while_publishing_aborts nat clone 2 p3 7 false _ 1 Hr Hp Hi).
Defined.

(** The single task has succeeded; the Executor stands at the final
    select. *)
Lemma cancel_before_forward_drops_silently_witness :
  let s := state_after p1 sched_at_forward1 in
  reachable clone 2 p1 7 false s /\ point s = EForward /\
  length (received s) = 1 /\ has_nil (received s) = false /\
  exec_step clone p1 false true s = None /\
  exists s', exec_step clone p1 true true s = Some s' /\ point s' = EReturned /\
    forall ms c2 s2, run clone 2 p1 ms (true, s') = Some (c2, s2) ->
      point s2 = EReturned /\ outputs (trace s2) = 0 /\ ~ forwarded s2 /\
      count is_processed (acts_of Executor (trace s2)) = 0 /\
      count is_mark (acts_of Executor (trace s2)) = 0 /\
      announcements (trace s2) = 1.
Proof.
  assert (Hr : reachable clone 2 p1 7 false (state_after p1 sched_at_forward1))
    by (apply (reach p1 sched_at_forward1); vm_compute; reflexivity).
  assert (Hp : point (state_after p1 sched_at_forward1) = EForward)
    by (vm_compute; reflexivity).
  split; [exact Hr|]. split; [exact Hp|].
  exact (@cancel_before_forward_drops_silently nat clone 2 p1 7 false _ Hr Hp).
Defined.

End Witness.

(** * The further properties on concrete fan-outs and runs *)

Module Further.
Import Example.

Lemma Run_reach (q : parallel nat) (ms : list (rmove nat)) :
  Run clone 2 q ms (Run_init false) = Some (Run_after q ms) ->
  Run_reachable clone 2 q (Run_after q ms).
Proof. intros H. exists false, ms. exact H. Qed.

(** One task, which succeeds: the item has been forwarded. *)
Lemma output_is_the_original_at_most_once_witness :
  let s := state_after p1 sched_forward1 in
  reachable clone 2 p1 7 false s /\
  outputs (trace s) <= 1 /\
  forall a x, In (a, SendOutput x) (trace s) ->
    a = Executor /\ x = 7 /\ point s = EReturned /\
    length (received s) = length (tasks p1) /\ has_nil (received s) = false.
Proof.
  assert (Hr : reachable clone 2 p1 7 false (state_after p1 sched_forward1))
    by (apply (Witness.reach p1 sched_forward1); vm_compute; reflexivity).
  split; [exact Hr|].
  exact (@output_is_the_original_at_most_once nat clone 2 p1 7 false _ Hr).
Defined.

(** Three clones announced, three runners spawned. *)
Lemma clones_announced_before_dispatch_witness :
  let s := state_after p3 sched_before_send3 in
  reachable clone 2 p3 7 false s /\
  count (fun e => is_newdata (snd e)) (trace s) = length (runners s) /\
  length (runners s) <= length (tasks p3) /\
  (forall a x, In (a, SendNewData x) (trace s) -> a = Executor /\ x = clone 7) /\
  (forall j, acts_of (Runner j) (trace s) <> [] ->
     j < count is_newdata (acts_of Executor (trace s))).
Proof.
  assert (Hr : reachable clone 2 p3 7 false (state_after p3 sched_before_send3))
    by (apply (Witness.reach p3 sched_before_send3); vm_compute; reflexivity).
  split; [exact Hr|].
  exact (@clones_announced_before_dispatch nat clone 2 p3 7 false _ Hr).
Defined.

(** Three tasks, the middle one fails: three clones and the original. *)
Lemma notifications_name_their_owner_witness :
  let s := state_after p3 sched_drop3 in
  reachable clone 2 p3 7 false s /\
  (forall a x,
     In (a, SendProcessed x) (trace s) \/ In (a, MarkAsProcessed x) (trace s) ->
     (a = Executor /\ x = 7 /\ length (received s) = length (tasks p3) /\
      has_nil (received s) = true) \/
     (exists j, a = Runner j /\ j < length (tasks p3) /\ x = clone 7)) /\
  (forall a,
     count is_mark (acts_of a (trace s)) <= count is_processed (acts_of a (trace s)) /\
     count is_processed (acts_of a (trace s)) <= 1).
Proof.
  assert (Hr : reachable clone 2 p3 7 false (state_after p3 sched_drop3))
    by (apply (Witness.reach p3 sched_drop3); vm_compute; reflexivity).
  split; [exact Hr|].
  exact (@notifications_name_their_owner nat clone 2 p3 7 false _ Hr).
Defined.


Lemma each_task_called_once_on_a_clone_witness :
  let s := state_after p3 sched_drop3 in
  reachable clone 2 p3 7 false s /\
  (forall a i x, In (a, CallProcess i x) (trace s) ->
     a = Runner i /\ i < length (tasks p3) /\ x = clone 7) /\
  (forall j, count is_call (acts_of (Runner j) (trace s)) <= 1) /\
  count (fun e => is_call (snd e)) (trace s) = sum_map (@started nat) (runners s) /\
  (length (received s) = length (tasks p3) ->
   count (fun e => is_call (snd e)) (trace s) = length (tasks p3)).
Proof.
  assert (Hr : reachable clone 2 p3 7 false (state_after p3 sched_drop3))
    by (apply (Witness.reach p3 sched_drop3); vm_compute; reflexivity).
  split; [exact Hr|].
  exact (@each_task_called_once_on_a_clone nat clone 2 p3 7 false _ Hr).
Defined.

(** Two tasks; one value received, the other runner not yet started. *)
Lemma done_carries_the_task_results_witness :
  let s := state_after p2 sched_join2 in
  reachable clone 2 p2 7 false s /\
  Permutation (received s ++ done s) (handed_off p2 (runners s)) /\
  length (received s) + length (done s) <= length (runners s) /\
  forall v, In v (received s ++ done s) ->
    exists j t, nth_error (tasks p2) j = Some t /\ v = fst (Process t (clone 7)).
Proof.
  assert (Hr : reachable clone 2 p2 7 false (state_after p2 sched_join2))
    by (apply (Witness.reach p2 sched_join2); vm_compute; reflexivity).
  split; [exact Hr|].
  exact (@done_carries_the_task_results nat clone 2 p2 7 false _ Hr).
Defined.

(** The join loop has ended with a nil among three values. *)
Lemma failed_flag_tracks_nil_witness :
  let s := state_after p3 sched_joined3 in
  reachable clone 2 p3 7 false s /\
  (forall k f, point s = EJoin k f ->
     f = has_nil (received s) /\ length (received s) = k /\
     length (runners s) = length (tasks p3)) /\
  (point s = EFailPub \/ point s = EFailMark -> has_nil (received s) = true) /\
  (point s = EForward -> has_nil (received s) = false).
Proof.
  assert (Hr : reachable clone 2 p3 7 false (state_after p3 sched_joined3))
    by (apply (Witness.reach p3 sched_joined3); vm_compute; reflexivity).
  split; [exact Hr|].
  exact (@failed_flag_tracks_nil nat clone 2 p3 7 false _ Hr).
Defined.

(** Three tasks, the middle one fails, no cancellation. *)
Lemma outcome_fixed_by_the_tasks_witness :
  let s := state_after p3 sched_drop3 in
  reachable clone 2 p3 7 false s /\ point s = EReturned /\ ~ took_done s /\
  (forwarded s <-> has_nil (task_results clone p3 7) = false) /\
  outputs (trace s) = (if has_nil (task_results clone p3 7) then 0 else 1) /\
  announcements (trace s) =
    length (tasks p3) + (if has_nil (task_results clone p3 7) then 1 else 0) /\
  length (errors s) = length (failing clone p3 7).
Proof.
  assert (Hr : reachable clone 2 p3 7 false (state_after p3 sched_drop3))
    by (apply (Witness.reach p3 sched_drop3); vm_compute; reflexivity).
  assert (Hp : point (state_after p3 sched_drop3) = EReturned)
    by (vm_compute; reflexivity).
  assert (Hb : existsb is_ctx_done
                 (acts_of Executor (trace (state_after p3 sched_drop3))) = false)
    by (vm_compute; reflexivity).
  assert (Hd : ~ took_done (state_after p3 sched_drop3))
    by (unfold took_done; rewrite Hb; discriminate).
  split; [exact Hr|]. split; [exact Hp|]. split; [exact Hd|].
  exact (@outcome_fixed_by_the_tasks nat clone 2 p3 7 false _ Hr Hp Hd).
Defined.

(** One clone of three is published. *)
Lemma executeTask_can_always_return_witness :
  let s := state_after p3 sched_publishing3 in
  reachable clone 2 p3 7 false s /\
  exists ms s', forallb calm ms = true /\
    run clone 2 p3 ms (false, s) = Some (false, s') /\ point s' = EReturned.
Proof.
  assert (Hr : reachable clone 2 p3 7 false (state_after p3 sched_publishing3))
    by (apply (Witness.reach p3 sched_publishing3); vm_compute; reflexivity).
  split; [exact Hr|].
  exact (@executeTask_can_always_return nat clone 2 p3 7 false _ Hr).
Defined.

(** The context is cancelled while the second of three clones waits to be
    published; one runner is left behind. *)
Lemma abandoned_runners_finish_unheard_witness :
  let s := state_after p3 sched_abort3 in
  reachable clone 2 p3 7 true s /\ point s = EReturned /\
  length (received s) < length (tasks p3) /\
  took_done s /\ received s = [] /\ length (runners s) < length (tasks p3) /\
  length (done s) <= length (runners s) /\
  (forall ms c2 s2, run clone 2 p3 ms (true, s) = Some (c2, s2) ->
     point s2 = EReturned /\ received s2 = [] /\
     length (runners s2) = length (runners s) /\
     exists more, done s2 = done s ++ more) /\
  (exists ms s', forallb calm ms = true /\
     run clone 2 p3 ms (true, s) = Some (true, s') /\
     Forall (fun r => rpoint r = RExit) (runners s') /\
     received s' = [] /\ length (done s') = length (runners s)).
Proof.
  assert (Hr : reachable clone 2 p3 7 true (state_after p3 sched_abort3))
    by (apply (Witness.reach p3 sched_abort3); vm_compute; reflexivity).
  assert (Hp : point (state_after p3 sched_abort3) = EReturned)
    by (vm_compute; reflexivity).
  assert (Hn : length (received (state_after p3 sched_abort3)) < length (tasks p3))
    by (vm_compute; lia).
  split; [exact Hr|]. split; [exact Hp|]. split; [exact Hn|].
  exact (@abandoned_runners_finish_unheard nat clone 2 p3 7 true _ Hr Hp Hn).
Defined.


Lemma Run_outputs_at_most_one_each_witness :
  let g := Run_after p1 run_sched in
  Run_reachable clone 2 p1 g /\
  Forall (fun n => n <= 1) (Run_outputs g) /\
  forall f a x, In f (fanouts g) -> In (a, SendOutput x) (trace f) ->
    a = Executor /\ x = data f.
Proof.
  assert (Hg : Run_reachable clone 2 p1 (Run_after p1 run_sched))
    by (apply (Run_reach p1 run_sched); vm_compute; reflexivity).
  split; [exact Hg|].
  exact (@Run_outputs_at_most_one_each nat clone 2 p1 _ Hg).
Defined.

(** After the first item was forwarded, [Run] is back at its select. *)
Lemma Run_one_fanout_in_flight_witness :
  let g := Run_after p1 run_first in
  Run_reachable clone 2 p1 g /\
  (forall k f, nth_error (fanouts g) k = Some f -> point f <> EReturned ->
     k = 0 /\ stopped g = false) /\
  (forall m d g',
     m = RInput (Some d) \/ m = RQueue (Some (QData d)) ->
     Run_step clone 2 p1 m g = Some g' ->
     Forall (fun f => point f = EReturned) (fanouts g) /\
     fanouts g' = executeTask_init p1 d :: fanouts g).
Proof.
  assert (Hg : Run_reachable clone 2 p1 (Run_after p1 run_first))
    by (apply (Run_reach p1 run_first); vm_compute; reflexivity).
  split; [exact Hg|].
  exact (@Run_one_fanout_in_flight nat clone 2 p1 _ Hg).
Defined.

(** The input channel was closed after two items. *)
Lemma Run_stopped_for_good_witness :
  let g := Run_after p1 run_sched in
  Run_reachable clone 2 p1 g /\ stopped g = true /\
  Forall (fun f => point f = EReturned) (fanouts g) /\
  forall ms g', Run clone 2 p1 ms g = Some g' ->
    stopped g' = true /\ Forall (fun f => point f = EReturned) (fanouts g') /\
    map (@data nat) (fanouts g') = map (@data nat) (fanouts g) /\
    Run_outputs g' = Run_outputs g.
Proof.
  assert (Hg : Run_reachable clone 2 p1 (Run_after p1 run_sched))
    by (apply (Run_reach p1 run_sched); vm_compute; reflexivity).
  assert (Hs : stopped (Run_after p1 run_sched) = true)
    by (vm_compute; reflexivity).
  split; [exact Hg|]. split; [exact Hs|].
  exact (@Run_stopped_for_good nat clone 2 p1 _ Hg Hs).
Defined.

(** The Queue signals between the two admissions and is found empty. *)
Lemma Run_tolerates_empty_pop_witness :
  let g' := Run_after p1 run_sched in
  skipped (@None (queued nat)) = true /\
  Run clone 2 p1 (run_first ++ RQueue None :: run_second) (Run_init false) = Some g' /\
  Run clone 2 p1 (run_first ++ run_second) (Run_init false) = Some g'.
Proof.
  assert (Hx : skipped (@None (queued nat)) = true) by reflexivity.
  assert (H : Run clone 2 p1 (run_first ++ RQueue None :: run_second)
                (Run_init false) = Some (Run_after p1 run_sched))
    by (vm_compute; reflexivity).
  split; [exact Hx|]. split; [exact H|].
  exact (@Run_tolerates_empty_pop nat clone 2 p1 _ _ _ _ _ Hx H).
Defined.

Lemma Run_admits_each_item_once_in_order_witness :
  let g' := Run_after p1 run_sched in
  Run clone 2 p1 run_sched (Run_init false) = Some g' /\
  map (@data nat) (fanouts g') =
    rev (admissions run_sched) ++ map (@data nat) (fanouts (@Run_init nat false)).
Proof.
  assert (H : Run clone 2 p1 run_sched (Run_init false) =
              Some (Run_after p1 run_sched))
    by (vm_compute; reflexivity).
  split; [exact H|].
  exact (@Run_admits_each_item_once_in_order nat clone 2 p1 _ _ _ H).
Defined.

End Further.
